(** * Distributed exact dense retrieval: the multi-worker search pipeline

    A shallow embedding of
    [beir/retrieval/search/dense/exact_search_multi_gpu.py]:
    the coordinator ([DenseRetrievalParallelExactSearch.search]), the
    per-chunk worker ([_encode_multi_process_worker]), the collector
    ([DummyMetric]) and the merge loop that builds the final result
    mapping.

    Python integers are [Z]; Python lists are [list], indexed through
    [py_getitem], which implements negative indices and raises
    [IndexError] out of range; dictionaries keyed by ids are [gmap string];
    exceptions are the constructors of [exn].  Scores are floats: a float is
    either not-a-number or a rational value (rounding is not modelled). *)

From Stdlib Require Import ZArith QArith Qround Lia.
From stdpp Require Import base option list sorting gmap strings fin_maps.

Local Open Scope Z_scope.

(** ** Exceptions and results *)

Inductive exn : Type :=
  | ValueError (msg : string)
  | ZeroDivisionError
  | IndexError
  | KeyError
  | TypeError
  | RuntimeError.

Inductive result (A : Type) : Type :=
  | Ok (a : A)
  | Raise (e : exn).
Arguments Ok {A} a.
Arguments Raise {A} e.

Global Instance result_ret : MRet result := λ A a, Ok a.

Global Instance result_bind : MBind result := λ A B k r,
  match r with
  | Ok a => k a
  | Raise e => Raise e
  end.

Fixpoint rmapM {A B} (f : A → result B) (l : list A) : result (list B) :=
  match l with
  | [] => Ok []
  | x :: l' =>
      match f x with
      | Raise e => Raise e
      | Ok y =>
          match rmapM f l' with
          | Raise e => Raise e
          | Ok ys => Ok (y :: ys)
          end
      end
  end.

(** ** Floats *)

Inductive fl : Type :=
  | NaN
  | Num (q : Q).

Definition isnan (x : fl) : bool :=
  match x with
  | NaN => true
  | Num _ => false
  end.

(** The order [torch.topk] selects by: not-a-number compares greater than
    every number. *)
Definition fl_leb (x y : fl) : bool :=
  match x, y with
  | _, NaN => true
  | NaN, Num _ => false
  | Num a, Num b => Qle_bool a b
  end.

Definition fl_ltb (x y : fl) : bool := negb (fl_leb y x).

Definition minus_one : fl := Num (-1).

(** [cos_scores[torch.isnan(cos_scores)] = -1], entry by entry. *)
Definition nan_to_minus_one (x : fl) : fl :=
  if isnan x then minus_one else x.

(** ** Python sequences *)

Definition len {A} (l : list A) : Z := Z.of_nat (length l).

(** [l[i]] for a Python list or a tensor's first axis: a negative index
    counts from the end, anything outside [-len, len) raises. *)
Definition py_getitem {A} (l : list A) (i : Z) : result A :=
  let j := if i <? 0 then i + len l else i in
  if (0 <=? j) && (j <? len l) then
    match l !! Z.to_nat j with
    | Some x => Ok x
    | None => Raise IndexError
    end
  else Raise IndexError.

(** [math.ceil(n / w / 10)]: true division, which raises on a zero
    divisor, then the ceiling. *)
Definition ceil_div10 (n w : Z) : result Z :=
  if w =? 0 then Raise ZeroDivisionError
  else Ok (Qceiling (inject_Z n / inject_Z w / 10)).

(** [DataLoader(ds, batch_size=n)] iterated: consecutive slices of [n]
    items, the last one possibly shorter. *)
Definition chunks {A} (n : nat) (l : list A) : list (list A) :=
  (λ j, take n (drop (j * n) l)) <$> seq 0 (Nat.div (length l + n - 1) n).

Definition DataLoader {A} (ds : list A) (batch_size : Z) : result (list (list A)) :=
  if batch_size <=? 0
  then Raise (ValueError "batch_size should be a positive integer value")
  else Ok (chunks (Z.to_nat batch_size) ds).

(** Matrix transposition of a matrix with [k] columns. *)
Definition transpose {A} (k : nat) (m : list (list A)) : list (list A) :=
  (λ j, omap (λ row : list A, row !! j) m) <$> seq 0 k.

(** ** [torch.topk(row, k, largest=True, sorted=False)] on one row

    The result pairs each selected local index with its value.  Which of
    several equal scores is taken, and the order of the selection, are
    left open by the library.  This model takes the first [k] of a
    descending merge sort: one of the selections the library may return,
    and among equal scores not always the one of the lowest index.  What is
    proved of a selection is stated through [is_topk] below, which holds of
    every selection the library may return. *)

Definition score_ge (x y : nat * fl) : Prop := fl_leb (snd y) (snd x) = true.

Global Instance score_ge_dec x y : Decision (score_ge x y).
Proof. unfold score_ge. apply _. Defined.

Definition indexed (row : list fl) : list (nat * fl) := imap pair row.

Definition topk_row (row : list fl) (k : Z) : result (list (nat * fl)) :=
  if (k <? 0) || (len row <? k) then Raise RuntimeError
  else Ok (take (Z.to_nat k) (merge_sort score_ge (indexed row))).

Example topk_row_ex :
  topk_row [Num 0.5; Num 0.25; Num 1; Num (-1)] 2 = Ok [(2%nat, Num 1); (0%nat, Num 0.5)].
Proof. reflexivity. Qed.

Example topk_row_tie :
  topk_row [Num 1; Num 0; Num 0] 2 = Ok [(0%nat, Num 1); (2%nat, Num 0)].
Proof. reflexivity. Qed.

Example chunks_ex : chunks 3 [1;2;3;4;5;6;7] = [[1;2;3];[4;5;6];[7]].
Proof. reflexivity. Qed.

(** ** Data model *)

Record CorpusItem : Type := {
  c_id : string;
  c_title : option string;
  c_text : string
}.

Record QueryItem : Type := {
  q_id : string;
  q_text : string
}.

(** One row of the collector's table ([DummyMetric._info]): the values and
    the local indices of one rank slot, for every query, and the index of
    the chunk they come from. *)
Record Row : Type := {
  cos_scores_top_k_values : list fl;
  cos_scores_top_k_idx : list Z;
  batch_index : Z
}.

(** [DummyMetric.warmup]: one row of five ones, tagged [-1]. *)
Definition warmup : list Row :=
  [ {| cos_scores_top_k_values := replicate 5 (Num 1);
       cos_scores_top_k_idx := replicate 5 1;
       batch_index := -1 |} ].

(** [len(x.get("title", "") + x.get("text", ""))] *)
Definition doc_len (x : CorpusItem) : nat :=
  String.length (default "" (c_title x) +:+ c_text x).

Definition longer_first (x y : CorpusItem) : Prop := (doc_len y ≤ doc_len x)%nat.

Global Instance longer_first_dec x y : Decision (longer_first x y).
Proof. unfold longer_first. apply _. Defined.

(** [corpus.sort('len', reverse=True)]; the order among documents of equal
    length is the dataset library's. *)
Definition sort_by_len (corpus : list CorpusItem) : list CorpusItem :=
  merge_sort longer_first corpus.

Definition enumerate {A} (l : list A) : list (Z * A) :=
  imap (λ i x, (Z.of_nat i, x)) l.

Definition range (n : Z) : list Z := Z.of_nat <$> seq 0 (Z.to_nat n).

Inductive event : Type :=
  | EncodeQueries (texts : list string)
  | StartPool (devices : list string)
  | EncodeCorpus (chunk_id : Z)
  | StopPool
  | Compute.

Abbreviation results_t := (gmap string (gmap string fl)).

(** ** A small model to run the pipeline on

    Texts are strings of digits and a text's embedding is the vector of its
    digits, so that examples can be evaluated. *)

Module Toy.

Definition digit (a : Ascii.ascii) : Z := Z.of_nat (Ascii.nat_of_ascii a) - 48.

Definition embed (text : string) : list Z := digit <$> String.list_ascii_of_string text.

Definition dot (a b : list Z) : Z := foldr Z.add 0 (zip_with Z.mul a b).

(** Modelled from the spec: [dot_score] of [util], which is not part of the
    source at hand; "raw dot product, no normalization". *)
Definition dot_score (a b : list Z) : fl := Num (inject_Z (dot a b)).

(** Modelled from the spec: [cos_sim] of [util], which is not part of the
    source at hand; "normalize both inputs, then dot product", not-a-number
    for a zero vector.  Norms are integer square roots, exact on the
    vectors used below. *)
Definition cos_sim (a b : list Z) : fl :=
  if (dot a a =? 0) || (dot b b =? 0) then NaN
  else Num (Qred (Qmake (dot a b) (Z.to_pos (Z.sqrt (dot a a) * Z.sqrt (dot b b))))).

Definition doc (id text : string) : CorpusItem :=
  {| c_id := id; c_title := None; c_text := text |}.

Definition query (id text : string) : QueryItem :=
  {| q_id := id; q_text := text |}.

Definition embed_doc (d : CorpusItem) : list Z := embed (c_text d).

(** Chunk [c] goes to worker [c mod n]. *)
Definition round_robin (c : nat) : nat := c.

End Toy.

(** ** The searcher object, its workers and the coordinator

    The embedding model and the two similarity primitives live outside this
    file's source: the model is a pair of encoders, one embedding per text,
    and a similarity primitive scores one query embedding against one
    document embedding (the score matrix is [S[i][j] = sim Q[i] C[j]]).
    [sched] says which worker takes which chunk off the shared queue. *)

Section DenseRetrievalParallelExactSearch.

Variable E : Type.
Variable embed_query : string → E.
Variable embed_doc : CorpusItem → E.
Variables cos_sim dot_score : E → E → fl.
Variable sched : nat → nat.

Record Self : Type := {
  batch_size : Z;
  target_devices : list string;
  corpus_chunk_size : option Z;
  sort_corpus : bool;
  results : results_t;
  query_embeddings : list E;
  top_k : option Z;
  score_function : option string
}.

(** [__init__], with the devices already discovered. *)
Definition __init__ (batch_size : Z) (corpus_chunk_size : option Z)
    (target_devices : list string) : Self :=
  {| batch_size := batch_size;
     target_devices := target_devices;
     corpus_chunk_size := corpus_chunk_size;
     sort_corpus := true;
     results := ∅;
     query_embeddings := [];
     top_k := None;
     score_function := None |}.

(** [self.score_functions], set once by [__init__]. *)
Definition score_functions : gmap string (E → E → fl) :=
  {[ "cos_sim" := cos_sim; "dot" := dot_score ]}.

Definition set_corpus_chunk_size (c : Z) (self : Self) : Self :=
  {| batch_size := batch_size self;
     target_devices := target_devices self;
     corpus_chunk_size := Some c;
     sort_corpus := sort_corpus self;
     results := results self;
     query_embeddings := query_embeddings self;
     top_k := top_k self;
     score_function := score_function self |}.

Definition set_job (qe : list E) (k : Z) (name : string) (self : Self) : Self :=
  {| batch_size := batch_size self;
     target_devices := target_devices self;
     corpus_chunk_size := corpus_chunk_size self;
     sort_corpus := sort_corpus self;
     results := results self;
     query_embeddings := qe;
     top_k := Some k;
     score_function := Some name |}.

Definition set_results (res : results_t) (self : Self) : Self :=
  {| batch_size := batch_size self;
     target_devices := target_devices self;
     corpus_chunk_size := corpus_chunk_size self;
     sort_corpus := sort_corpus self;
     results := res;
     query_embeddings := query_embeddings self;
     top_k := top_k self;
     score_function := score_function self |}.

(** *** The worker: one pass of the loop body of
    [_encode_multi_process_worker] *)

Definition of_option {A} (e : exn) (o : option A) : result A :=
  match o with
  | Some a => Ok a
  | None => Raise e
  end.

(** The score matrix of a similarity primitive: one row per query. *)
Definition score_matrix (f : E → E → fl) (qs cs : list E) : list (list fl) :=
  (λ q, f q <$> cs) <$> qs.

(** [cos_scores[torch.isnan(cos_scores)] = -1] *)
Definition replace_nan (m : list (list fl)) : list (list fl) :=
  (λ row : list fl, nan_to_minus_one <$> row) <$> m.

(** [torch.topk(cos_scores, k, dim=1, largest=True, sorted=False)] *)
Definition topk (m : list (list fl)) (k : Z) : result (list (list (nat * fl))) :=
  rmapM (λ row, topk_row row k) m.

Definition topk_values (k : Z) (sel : list (list (nat * fl))) : list (list fl) :=
  transpose (Z.to_nat k) ((λ r : list (nat * fl), snd <$> r) <$> sel).

Definition topk_idx (k : Z) (sel : list (list (nat * fl))) : list (list Z) :=
  transpose (Z.to_nat k) ((λ r : list (nat * fl), (λ p, Z.of_nat (fst p)) <$> r) <$> sel).

(** [metric.add_batch(values, idx, batch_index=[id]*len(values))] *)
Definition add_batch (values : list (list fl)) (idx : list (list Z)) (id : Z) : list Row :=
  zip_with (λ v i, {| cos_scores_top_k_values := v;
                      cos_scores_top_k_idx := i;
                      batch_index := id |}) values idx.

Definition process_chunk (self : Self) (id : Z) (sentences : list CorpusItem)
    : result (list Row) :=
  let corpus_embeds := embed_doc <$> sentences in
  name ← of_option KeyError (score_function self);
  f ← of_option KeyError (score_functions !! name);
  let cos_scores := score_matrix f (query_embeddings self) corpus_embeds in
  let cos_scores := replace_nan cos_scores in
  k0 ← of_option TypeError (top_k self);
  row1 ← py_getitem cos_scores 1;
  let k := Z.min (k0 + 1) (len row1) in
  sel ← topk cos_scores k;
  let cos_scores_top_k_values := topk_values k sel in
  let cos_scores_top_k_idx := topk_idx k sel in
  mret (add_batch cos_scores_top_k_values cos_scores_top_k_idx id).

(** The rows one worker adds after its warm-up: it handles its inputs in
    queue order and dies at the first exception other than an empty
    queue. *)
Fixpoint worker_loop (self : Self) (inputs : list (Z * list CorpusItem)) : list Row :=
  match inputs with
  | [] => []
  | (id, sentences) :: rest =>
      match process_chunk self id sentences with
      | Ok rows => rows ++ worker_loop self rest
      | Raise _ => []
      end
  end.

(** [_encode_multi_process_worker]: the warm-up, then the loop; the rows the
    worker has added to the table when the pool is stopped. *)
Definition _encode_multi_process_worker (self : Self)
    (inputs : list (Z * list CorpusItem)) : list Row :=
  warmup ++ worker_loop self inputs.

(** The inputs worker [w] of [n] pulls from the queue. *)
Definition inputs_of (n w : nat) (dl : list (list CorpusItem)) : list (Z * list CorpusItem) :=
  filter (λ p, sched (Z.to_nat (fst p)) `mod` n = w)%nat (enumerate dl).

(** [metric.compute()] on process 0: every worker's rows, worker by worker. *)
Definition compute (self : Self) (dl : list (list CorpusItem)) : list Row :=
  let n := length (target_devices self) in
  mjoin ((λ w, _encode_multi_process_worker self (inputs_of n w dl)) <$> seq 0 n).

(** *** The coordinator's effects

    [search] mutates the object and talks to the model and the pool; a
    computation threads the object together with the log of these calls,
    and an exception leaves both as they were when it was raised. *)

Record World : Type := {
  obj : Self;
  trace : list event
}.

Definition M (A : Type) : Type := World → World * result A.

Global Instance M_ret : MRet M := λ A a w, (w, Ok a).

Global Instance M_bind : MBind M := λ A B k m w,
  match m w with
  | (w', Ok a) => k a w'
  | (w', Raise e) => (w', Raise e)
  end.

Definition get_self : M Self := λ w, (w, Ok (obj w)).

Definition modify (f : Self → Self) : M unit :=
  λ w, ({| obj := f (obj w); trace := trace w |}, Ok ()).

Definition emit (e : event) : M unit :=
  λ w, ({| obj := obj w; trace := trace w ++ [e] |}, Ok ()).

Definition lift {A} (r : result A) : M A := λ w, (w, r).

(** An in-place update of [self.results] that may raise before it writes. *)
Definition update_results (f : results_t → result results_t) : M unit :=
  λ w, match f (results (obj w)) with
       | Ok res => ({| obj := set_results res (obj w); trace := trace w |}, Ok ())
       | Raise e => (w, Raise e)
       end.

Fixpoint forM_ {A} (l : list A) (f : A → M unit) : M unit :=
  match l with
  | [] => mret ()
  | x :: l' => f x ;; forM_ l' f
  end.

Fixpoint forM {A B} (l : list A) (f : A → M B) : M (list B) :=
  match l with
  | [] => mret []
  | x :: l' => y ← f x; ys ← forM l' f; mret (y :: ys)
  end.

(** [torch.cat(tensors, dim=0)] rejects an empty list. *)
Definition torch_cat (tensors : list (list E)) : result (list E) :=
  match tensors with
  | [] => Raise RuntimeError
  | _ => Ok (mjoin tensors)
  end.

(** [a // b] *)
Definition floordiv (a b : Z) : result Z :=
  if b =? 0 then Raise ZeroDivisionError else Ok (a / b).

(** *** The merge loop body (lines 136 to 143), for one query and one row *)

Definition global_position (chunk_size batch_num i : Z) : Z :=
  i + batch_num * chunk_size.

Definition merge_candidate (chunk_size : Z) (corpus_ids : list string)
    (query_itr : Z) (query_id : string) (r : Row) (res : results_t)
    : result results_t :=
  let batch_num := batch_index r in
  if batch_num =? -1 then mret res
  else
    i ← py_getitem (cos_scores_top_k_idx r) query_itr;
    let sub_corpus_id := global_position chunk_size batch_num i in
    score ← py_getitem (cos_scores_top_k_values r) query_itr;
    corpus_id ← py_getitem corpus_ids sub_corpus_id;
    if bool_decide (corpus_id ≠ query_id) then
      inner ← of_option KeyError (res !! query_id);
      mret (<[query_id := <[corpus_id := score]> inner]> res)
    else mret res.

(** [{qid: {} for qid in query_ids}] *)
Definition empty_results (query_ids : list string) : results_t :=
  list_to_map ((λ qid, (qid, ∅)) <$> query_ids).

Definition merge (chunk_size : Z) (corpus_ids query_ids : list string)
    (n_queries : Z) (rows : list Row) : M unit :=
  modify (set_results (empty_results query_ids));;
  forM_ (range n_queries) (λ query_itr,
    query_id ← lift (py_getitem query_ids query_itr);
    forM_ rows (λ r,
      update_results
        (merge_candidate chunk_size corpus_ids query_itr query_id r))).

(** *** [search], phase by phase *)

Definition score_function_error (score_function : string) : exn :=
  ValueError ("score function: " +:+ score_function +:+
    " must be either (cos_sim) for cosine similarity or (dot) for dot product").

(** Lines 74 and 75. *)
Definition check_score_function (score_function : string) : M unit :=
  if bool_decide (score_function ∈ dom score_functions) then mret ()
  else lift (Raise (score_function_error score_function)).

(** Lines 77 and 78; the value left in [self.corpus_chunk_size] is the one
    every later line reads, nothing assigns the field again. *)
Definition normalize_chunk_size (corpus_size : Z) : M Z :=
  self ← get_self;
  c ← match corpus_chunk_size self with
       | None =>
           d ← lift (ceil_div10 corpus_size (len (target_devices self)));
           mret (Z.min d 5000)
       | Some c => mret c
       end;
  modify (set_corpus_chunk_size c);;
  modify (set_corpus_chunk_size (Z.min c (corpus_size - 1)));;
  mret (Z.min c (corpus_size - 1)).

(** Lines 80 to 83. *)
Definition prepare_corpus (self : Self) (corpus : list CorpusItem) : list CorpusItem :=
  if sort_corpus self then sort_by_len corpus else corpus.

(** Lines 91 to 97. *)
Definition encode_queries (queries_dl : list (list QueryItem)) : M (list E) :=
  embeds ← forM queries_dl (λ queries_batch,
    let texts := q_text <$> queries_batch in
    emit (EncodeQueries texts);;
    mret (embed_query <$> texts));
  lift (torch_cat embeds).

(** Lines 106 to 117: the pool is started, every chunk is put on the queue
    with its index, the pool is stopped. *)
Definition dispatch (corpus_size chunk_size : Z) (corpus_dl : list (list CorpusItem)) : M unit :=
  self ← get_self;
  emit (StartPool (target_devices self));;
  _ ← lift (floordiv corpus_size chunk_size);
  forM_ (enumerate corpus_dl) (λ p, emit (EncodeCorpus (fst p)));;
  emit StopPool.

(** Lines 80 to 145 for a given chunk size. *)
Definition search_job (chunk_size : Z) (corpus : list CorpusItem)
    (queries : list QueryItem) (top_k : Z) (score_function : string) : M results_t :=
  self ← get_self;
  let corpus := prepare_corpus self corpus in
  queries_dl ← lift (DataLoader queries chunk_size);
  corpus_dl ← lift (DataLoader corpus chunk_size);
  query_embeddings ← encode_queries queries_dl;
  modify (set_job query_embeddings top_k score_function);;
  dispatch (len corpus) chunk_size corpus_dl;;
  self ← get_self;
  emit Compute;;
  let rows := compute self corpus_dl in
  let query_ids := q_id <$> queries in
  let corpus_ids := c_id <$> corpus in
  merge chunk_size corpus_ids query_ids (len query_embeddings) rows;;
  self ← get_self;
  mret (results self).

Definition search (corpus : list CorpusItem) (queries : list QueryItem)
    (top_k : Z) (score_function : string) : M results_t :=
  check_score_function score_function;;
  chunk_size ← normalize_chunk_size (len corpus);
  search_job chunk_size corpus queries top_k score_function.

(** Running a call on an object, from an empty log. *)
Definition run {A} (m : M A) (self : Self) : World * result A :=
  m {| obj := self; trace := [] |}.

(** ** Running the coordinator's phases *)

Ltac munfold :=
  unfold mbind, mret, M_bind, M_ret, result_bind, result_ret,
    lift, modify, emit, get_self in *.

(** A pure left fold with exceptions: the view of a [forM_] loop whose body
    updates [self.results]. *)
Fixpoint rfold {A B} (f : B → A → result A) (l : list B) (a : A) : result A :=
  match l with
  | [] => Ok a
  | x :: l' =>
      match f x a with
      | Ok a' => rfold f l' a'
      | Raise e => Raise e
      end
  end.

Definition with_results (res : results_t) (w : World) : World :=
  {| obj := set_results res (obj w); trace := trace w |}.

Lemma with_results_id w : with_results (results (obj w)) w = w.
Proof. by destruct w as [[] ?]. Qed.

Lemma with_results_twice r1 r2 w :
  with_results r2 (with_results r1 w) = with_results r2 w.
Proof. by destruct w as [[] ?]. Qed.

Lemma forM_update_results {B} (f : B → results_t → result results_t) l w :
  ∃ res', forM_ l (λ x, update_results (f x)) w
          = (with_results res' w,
             match rfold f l (results (obj w)) with
             | Ok _ => Ok ()
             | Raise e => Raise e
             end)
        ∧ ∀ res, rfold f l (results (obj w)) = Ok res → res' = res.
Proof.
  revert w. induction l as [|x l IH]; intros w; simpl.
  - exists (results (obj w)). rewrite with_results_id. munfold.
    split; [done|]. by intros ? [= ->].
  - munfold. unfold update_results at 1.
    destruct (f x (results (obj w))) as [r1|e] eqn:Hf.
    + destruct (IH {| obj := set_results r1 (obj w); trace := trace w |})
        as (res' & Hrun & Hres). simpl in *.
      exists res'. rewrite Hrun. split; [|done].
      fold (with_results r1 w). rewrite with_results_twice.
      by destruct (rfold f l r1).
    + exists (results (obj w)). rewrite with_results_id. split; [done|].
      intros ?; discriminate.
Qed.

Lemma forM_emit {B} (g : B → event) l w :
  forM_ l (λ x, emit (g x)) w
  = ({| obj := obj w; trace := trace w ++ (g <$> l) |}, Ok ()).
Proof.
  revert w. induction l as [|x l IH]; intros w; simpl; munfold.
  - rewrite app_nil_r. by destruct w.
  - rewrite IH. simpl. by rewrite <- app_assoc.
Qed.

(** The merge loop as a pure function of the result mapping. *)
Definition merge_query (chunk_size : Z) (corpus_ids query_ids : list string)
    (rows : list Row) (query_itr : Z) (res : results_t) : result results_t :=
  match py_getitem query_ids query_itr with
  | Ok query_id =>
      rfold (merge_candidate chunk_size corpus_ids query_itr query_id) rows res
  | Raise e => Raise e
  end.

Definition merged (chunk_size : Z) (corpus_ids query_ids : list string)
    (n_queries : Z) (rows : list Row) : result results_t :=
  rfold (merge_query chunk_size corpus_ids query_ids rows)
    (range n_queries) (empty_results query_ids).

Lemma merge_run chunk_size corpus_ids query_ids n rows w :
  ∃ res', merge chunk_size corpus_ids query_ids n rows w
          = (with_results res' w,
             match merged chunk_size corpus_ids query_ids n rows with
             | Ok _ => Ok ()
             | Raise e => Raise e
             end)
        ∧ ∀ res, merged chunk_size corpus_ids query_ids n rows = Ok res → res' = res.
Proof.
  unfold merge, merged. munfold. simpl.
  fold (with_results (empty_results query_ids) w).
  generalize (empty_results query_ids) as r0. generalize (range n) as qs.
  induction qs as [|qi qs IH]; intros r0; simpl.
  - exists r0. munfold. split; [done|]. by intros ? [= ->].
  - munfold. unfold merge_query at 1 3.
    destruct (py_getitem query_ids qi) as [qid|e]; simpl.
    + destruct (forM_update_results
        (merge_candidate chunk_size corpus_ids qi qid) rows (with_results r0 w))
        as (r1 & Hrun & Hres).
      rewrite Hrun. simpl in *.
      destruct (rfold _ rows r0) as [r1'|e] eqn:Hfold.
      * rewrite (Hres _ eq_refl). rewrite with_results_twice. apply IH.
      * exists r1. rewrite with_results_twice. split; [done|]. intros ?; discriminate.
    + exists r0. split; [done|]. intros ?; discriminate.
Qed.

(** ** Chunks of a dataset *)

Lemma chunks_length {A} (n : nat) (l : list A) :
  length (chunks n l) = Nat.div (length l + n - 1) n.
Proof. unfold chunks. by rewrite length_fmap, length_seq. Qed.

Lemma chunks_lookup {A} (n : nat) (l : list A) b ch :
  chunks n l !! b = Some ch →
  ch = take n (drop (b * n) l) ∧ (b < Nat.div (length l + n - 1) n)%nat.
Proof.
  unfold chunks. rewrite list_lookup_fmap. intros H.
  destruct (seq 0 _ !! b) as [j|] eqn:Hj; [|done].
  apply lookup_seq in Hj as [-> Hlt]. simpl in H.
  injection H as <-. split; [done|exact Hlt].
Qed.

(** The item at local index [j] of chunk [b] sits at position [j + b * n]
    of the stream. *)
Lemma chunks_item {A} (n : nat) (l : list A) b ch j x :
  chunks n l !! b = Some ch → ch !! j = Some x →
  l !! (j + b * n)%nat = Some x ∧ (j < n)%nat.
Proof.
  intros [-> _]%chunks_lookup Hx.
  apply lookup_take_Some in Hx as [Hx Hlt]. rewrite lookup_drop in Hx.
  split; [|done]. by rewrite Nat.add_comm.
Qed.

Lemma chunks_lookup_lt {A} (n : nat) (l : list A) b ch :
  chunks n l !! b = Some ch → (0 < n)%nat ∧ (b * n < length l)%nat.
Proof.
  intros [_ Hb]%chunks_lookup.
  destruct n as [|n]; [simpl in Hb; lia|]. split; [lia|].
  pose proof (Nat.Div0.mul_div_le (length l + S n - 1) (S n)).
  nia.
Qed.

Lemma chunks_chunk_length {A} (n : nat) (l : list A) b ch :
  chunks n l !! b = Some ch →
  (0 < length ch ≤ n)%nat ∧ (b * n + length ch ≤ length l)%nat.
Proof.
  intros H. destruct (chunks_lookup_lt _ _ _ _ H) as [Hn Hb].
  apply chunks_lookup in H as [-> _]. rewrite length_take, length_drop. lia.
Qed.

Lemma join_chunks_take {A} (n : nat) (l : list A) m :
  mjoin ((λ j, take n (drop (j * n) l)) <$> seq 0 m) = take (m * n) l.
Proof.
  induction m as [|m IH]; [done|].
  rewrite seq_S, fmap_app, join_app, IH. simpl. rewrite app_nil_r.
  rewrite take_take_drop. f_equal. lia.
Qed.

Lemma join_chunks {A} (n : nat) (l : list A) :
  (0 < n)%nat → mjoin (chunks n l) = l.
Proof.
  intros Hn. unfold chunks. rewrite join_chunks_take. apply take_ge.
  pose proof (Nat.div_mod (length l + n - 1) n ltac:(lia)).
  pose proof (Nat.mod_upper_bound (length l + n - 1) n ltac:(lia)).
  nia.
Qed.

Lemma chunks_nil {A} (n : nat) (l : list A) :
  (0 < n)%nat → chunks n l = [] → l = [].
Proof.
  intros Hn H. rewrite <- (join_chunks n l Hn), H. done.
Qed.

Lemma join_fmap_fmap {A B} (g : A → B) (ls : list (list A)) :
  mjoin ((λ l, g <$> l) <$> ls) = g <$> mjoin ls.
Proof.
  induction ls as [|l ls IH]; [done|]. simpl. rewrite fmap_app. f_equal. apply IH.
Qed.

(** ** Python indexing *)

Lemma py_getitem_nonneg {A} (l : list A) (i : Z) x :
  0 ≤ i → py_getitem l i = Ok x ↔ l !! Z.to_nat i = Some x.
Proof.
  intros Hi. unfold py_getitem, len.
  destruct (i <? 0) eqn:Hneg; [lia|].
  destruct (Z.leb_spec 0 i); [|lia]. simpl.
  destruct (Z.ltb_spec i (Z.of_nat (length l))).
  - destruct (l !! Z.to_nat i) eqn:Hl; naive_solver.
  - split; [done|]. intros Hl%lookup_lt_Some. lia.
Qed.

Lemma py_getitem_Ok {A} (l : list A) (i : Z) x :
  py_getitem l i = Ok x →
  l !! Z.to_nat (if i <? 0 then i + len l else i) = Some x
  ∧ - len l ≤ i < len l.
Proof.
  unfold py_getitem. intros H.
  destruct (0 <=? _) eqn:H0; [|done]. destruct (_ <? len l) eqn:H1; [|done].
  simpl in H. destruct (l !! _) eqn:Hl; [|done]. injection H as ->.
  split; [done|]. destruct (i <? 0) eqn:Hneg; lia.
Qed.

Lemma py_getitem_Raise {A} (l : list A) (i : Z) e :
  py_getitem l i = Raise e → e = IndexError.
Proof.
  unfold py_getitem. destruct (_ && _); [|congruence].
  destruct (l !! _); congruence.
Qed.

Lemma range_lookup n i qi : range n !! i = Some qi → qi = Z.of_nat i ∧ 0 ≤ qi < n.
Proof.
  unfold range. rewrite list_lookup_fmap. intros H.
  destruct (seq 0 _ !! i) as [j|] eqn:Hj; [|done].
  apply lookup_seq in Hj as [-> Hlt]. simpl in H. injection H as <-. lia.
Qed.

Lemma range_elem n qi : qi ∈ range n → 0 ≤ qi < n.
Proof. intros [i Hi]%list_elem_of_lookup. apply range_lookup in Hi. lia. Qed.

(** ** The order on scores and the selection of [topk_row] *)

Lemma fl_leb_refl x : fl_leb x x = true.
Proof. destruct x as [|q]; [done|]. simpl. apply Qle_bool_iff, Qle_refl. Qed.

Lemma fl_leb_trans x y z : fl_leb x y = true → fl_leb y z = true → fl_leb x z = true.
Proof.
  destruct x as [|a], y as [|b], z as [|c]; simpl; try done.
  rewrite !Qle_bool_iff. apply Qle_trans.
Qed.

Lemma fl_leb_total x y : fl_leb x y = true ∨ fl_leb y x = true.
Proof.
  destruct x as [|a], y as [|b]; simpl; auto.
  rewrite !Qle_bool_iff. destruct (Qlt_le_dec a b) as [?%Qlt_le_weak|?]; auto.
Qed.

Lemma fl_ltb_leb x y : fl_ltb x y = true → fl_leb x y = true.
Proof.
  unfold fl_ltb. intros H. destruct (fl_leb_total x y) as [|Hyx]; [done|].
  by rewrite Hyx in H.
Qed.

Global Instance score_ge_trans : Transitive score_ge.
Proof. intros x y z Hxy Hyz. unfold score_ge in *. eauto using fl_leb_trans. Qed.

Global Instance score_ge_total : Total score_ge.
Proof. intros x y. unfold score_ge. destruct (fl_leb_total x.2 y.2); auto. Qed.

Lemma nan_to_minus_one_not_nan x : isnan (nan_to_minus_one x) = false.
Proof. by destruct x. Qed.

Lemma nan_to_minus_one_num x : isnan x = false → nan_to_minus_one x = x.
Proof. by destruct x. Qed.

(** What a top-[k] selection of a row is: [k] distinct positions paired
    with their scores, none of them beaten by a position left out. *)
Definition is_topk (row : list fl) (k : nat) (sel : list (nat * fl)) : Prop :=
  length sel = k
  ∧ NoDup (sel.*1)
  ∧ (∀ i v, (i, v) ∈ sel → row !! i = Some v)
  ∧ (∀ i v j u, (i, v) ∈ sel → row !! j = Some u → j ∉ sel.*1 →
       fl_leb u v = true).

Lemma indexed_elem row i v : (i, v) ∈ indexed row ↔ row !! i = Some v.
Proof.
  unfold indexed. rewrite list_elem_of_lookup. split.
  - intros [j Hj]. rewrite list_lookup_imap in Hj.
    destruct (row !! j) eqn:Hr; simplify_eq/=. done.
  - intros H. exists i. by rewrite list_lookup_imap, H.
Qed.

Lemma indexed_fst row : (indexed row).*1 = seq 0 (length row).
Proof.
  unfold indexed. rewrite fmap_imap.
  rewrite (imap_ext _ (λ i _, i)) by done.
  apply list_eq. intros i. rewrite list_lookup_imap.
  destruct (row !! i) eqn:Hr; simpl.
  - symmetry. apply lookup_seq. split; [done|]. by apply lookup_lt_Some in Hr.
  - symmetry. apply lookup_seq_ge. by apply lookup_ge_None in Hr.
Qed.

Lemma topk_row_spec row k sel :
  topk_row row k = Ok sel → 0 ≤ k ≤ len row ∧ is_topk row (Z.to_nat k) sel.
Proof.
  unfold topk_row, len.
  destruct (Z.ltb_spec k 0); [done|].
  destruct (Z.ltb_spec (Z.of_nat (length row)) k); [done|].
  simpl. intros [= <-]. split; [lia|].
  set (sorted := merge_sort score_ge (indexed row)).
  assert (sorted ≡ₚ indexed row) as Hperm by apply merge_sort_Permutation.
  assert (StronglySorted score_ge sorted) as Hsorted
    by (apply StronglySorted_merge_sort; apply _).
  assert (length sorted = length row) as Hlen.
  { rewrite Hperm. apply length_imap. }
  assert (NoDup (sorted.*1)) as Hnd.
  { rewrite Hperm, indexed_fst. apply NoDup_seq. }
  rewrite <- (take_drop (Z.to_nat k) sorted) in Hsorted, Hnd.
  rewrite fmap_app in Hnd. apply NoDup_app in Hnd as (Hnd1 & Hdisj & _).
  repeat split.
  - rewrite length_take. lia.
  - done.
  - intros i v Hin. apply indexed_elem. rewrite <- Hperm.
    by apply (subseteq_take (Z.to_nat k)).
  - intros i v j u Hin Hj Hout.
    apply indexed_elem in Hj. rewrite <- Hperm in Hj.
    rewrite <- (take_drop (Z.to_nat k) sorted) in Hj.
    apply elem_of_app in Hj as [Hj|Hj].
    + exfalso. apply Hout. apply list_elem_of_fmap. by exists (j, u).
    + apply (StronglySorted_app_1_elem_of _ _ _ _ _ Hsorted Hin Hj).
Qed.

Lemma topk_row_ok row k :
  0 ≤ k ≤ len row → ∃ sel, topk_row row k = Ok sel.
Proof.
  unfold topk_row. intros Hk.
  destruct (Z.ltb_spec k 0); [lia|]. destruct (Z.ltb_spec (len row) k); [lia|].
  eauto.
Qed.

Lemma topk_row_Raise row k e :
  topk_row row k = Raise e → k < 0 ∨ len row < k.
Proof.
  unfold topk_row.
  destruct (Z.ltb_spec k 0); [auto|]. destruct (Z.ltb_spec (len row) k); [auto|].
  done.
Qed.

(** ** The worker's rows *)

Lemma rmapM_Ok {A B} (f : A → result B) l ys :
  rmapM f l = Ok ys → Forall2 (λ x y, f x = Ok y) l ys.
Proof.
  revert ys. induction l as [|x l IH]; intros ys; simpl.
  - intros [= <-]. constructor.
  - destruct (f x) eqn:Hx; [|done]. destruct (rmapM f l); [|done].
    intros [= <-]. constructor; auto.
Qed.

Lemma rmapM_total {A B} (f : A → result B) l :
  Forall (λ x, ∃ y, f x = Ok y) l → ∃ ys, rmapM f l = Ok ys.
Proof.
  induction 1 as [|x l [y Hy] _ [ys IH]]; simpl; [eauto|].
  rewrite Hy, IH. eauto.
Qed.

Lemma omap_lookup_all {A B} (g : A → option B) (m : list A) :
  Forall (λ x, is_Some (g x)) m →
  length (omap g m) = length m ∧ ∀ i, omap g m !! i = m !! i ≫= g.
Proof.
  induction 1 as [|x m [y Hy] _ [IHlen IH]]; csimpl.
  - split; [done|]. by intros i.
  - rewrite Hy. csimpl. split; [by rewrite IHlen|].
    intros [|i]; simpl; [done|apply IH].
Qed.

Lemma transpose_length {A} k (m : list (list A)) : length (transpose k m) = k.
Proof. unfold transpose. by rewrite length_fmap, length_seq. Qed.

Lemma transpose_lookup {A} (k : nat) (m : list (list A)) j col :
  Forall (λ row, length row = k) m →
  transpose k m !! j = Some col →
  (j < k)%nat ∧ length col = length m ∧ ∀ i, col !! i = m !! i ≫= (.!! j).
Proof.
  intros Hm. unfold transpose. rewrite list_lookup_fmap.
  destruct (seq 0 k !! j) as [j'|] eqn:Hj; [|done].
  apply lookup_seq in Hj as [-> Hlt]. simpl. intros [= <-].
  split; [done|]. apply omap_lookup_all.
  eapply Forall_impl; [exact Hm|]. intros row Hrow. simpl.
  apply lookup_lt_is_Some. simpl in Hrow. lia.
Qed.

Lemma add_batch_lookup values idx id j r :
  add_batch values idx id !! j = Some r →
  batch_index r = id
  ∧ values !! j = Some (cos_scores_top_k_values r)
  ∧ idx !! j = Some (cos_scores_top_k_idx r).
Proof.
  unfold add_batch. intros (v & i & -> & Hv & Hi)%lookup_zip_with_Some. done.
Qed.

Lemma score_matrix_lookup f qs cs qi row :
  replace_nan (score_matrix f qs cs) !! qi = Some row →
  ∃ q, qs !! qi = Some q ∧ row = (λ c, nan_to_minus_one (f q c)) <$> cs.
Proof.
  unfold replace_nan, score_matrix. rewrite !list_lookup_fmap.
  destruct (qs !! qi) as [q|]; [|done]. simpl. intros [= <-].
  exists q. split; [done|]. by rewrite <- list_fmap_compose.
Qed.

Lemma score_matrix_length f qs cs :
  length (replace_nan (score_matrix f qs cs)) = length qs.
Proof. unfold replace_nan, score_matrix. by rewrite !length_fmap. Qed.

(** The selection a chunk's rows were built from. *)
Definition chunk_selection (self : Self) (sentences : list CorpusItem)
    (f : E → E → fl) (k : Z) (sel : list (list (nat * fl))) : Prop :=
  let cos_scores :=
    replace_nan (score_matrix f (query_embeddings self) (embed_doc <$> sentences)) in
  topk cos_scores k = Ok sel
  ∧ Forall2 (λ row s, is_topk row (Z.to_nat k) s) cos_scores sel.

Lemma process_chunk_Ok self id sentences rows :
  process_chunk self id sentences = Ok rows →
  ∃ name f k0 sel,
    score_function self = Some name
    ∧ score_functions !! name = Some f
    ∧ top_k self = Some k0
    ∧ (2 ≤ length (query_embeddings self))%nat
    ∧ 0 ≤ Z.min (k0 + 1) (len sentences)
    ∧ chunk_selection self sentences f (Z.min (k0 + 1) (len sentences)) sel
    ∧ rows = add_batch (topk_values (Z.min (k0 + 1) (len sentences)) sel)
                       (topk_idx (Z.min (k0 + 1) (len sentences)) sel) id.
Proof.
  unfold process_chunk. munfold.
  destruct (score_function self) as [name|] eqn:Hname; [|done]. simpl.
  destruct (score_functions !! name) as [f|] eqn:Hf; [|done]. simpl.
  destruct (top_k self) as [k0|] eqn:Hk0; [|done]. simpl.
  set (m := replace_nan _).
  destruct (py_getitem m 1) as [row1|] eqn:Hrow1; [|done].
  apply py_getitem_nonneg in Hrow1; [|lia]. change (Z.to_nat 1) with 1%nat in Hrow1.
  assert (len row1 = len sentences) as Hlen.
  { apply score_matrix_lookup in Hrow1 as (q & _ & ->).
    unfold len. by rewrite !length_fmap. }
  rewrite Hlen.
  destruct (topk m _) as [sel|] eqn:Hsel; [|done]. intros [= <-].
  exists name, f, k0, sel.
  assert (Forall2 (λ row s, 0 ≤ Z.min (k0 + 1) (len sentences) ≤ len row
            ∧ is_topk row (Z.to_nat (Z.min (k0 + 1) (len sentences))) s) m sel) as Hall.
  { apply rmapM_Ok in Hsel. eapply Forall2_impl; [exact Hsel|].
    intros row s. apply topk_row_spec. }
  repeat split; try done.
  - apply lookup_lt_Some in Hrow1. unfold m in Hrow1.
    rewrite score_matrix_length in Hrow1. lia.
  - destruct (Forall2_lookup_l _ _ _ _ _ Hall Hrow1) as (s & _ & Hk & _).
    simpl in Hk. unfold len in *. lia.
  - eapply Forall2_impl; [exact Hall|]. by intros ?? [_ ?].
Qed.

Lemma chunk_rows_length k sel id :
  length (add_batch (topk_values k sel) (topk_idx k sel) id) = Z.to_nat k.
Proof.
  unfold add_batch, topk_values, topk_idx.
  rewrite length_zip_with, !transpose_length. lia.
Qed.

Lemma chunk_rows_lookup k sel id j r :
  Forall (λ s : list (nat * fl), length s = Z.to_nat k) sel →
  add_batch (topk_values k sel) (topk_idx k sel) id !! j = Some r →
  batch_index r = id
  ∧ length (cos_scores_top_k_values r) = length sel
  ∧ length (cos_scores_top_k_idx r) = length sel
  ∧ ∀ qi s, sel !! qi = Some s →
      ∃ i v, s !! j = Some (i, v)
           ∧ cos_scores_top_k_idx r !! qi = Some (Z.of_nat i)
           ∧ cos_scores_top_k_values r !! qi = Some v.
Proof.
  intros Hsel (Hid & Hv & Hi)%add_batch_lookup.
  unfold topk_values in Hv. unfold topk_idx in Hi.
  apply transpose_lookup in Hv as (Hj & Hvlen & Hv);
    [|by apply Forall_fmap; eapply Forall_impl; [exact Hsel|];
      intros s Hs; simpl in *; rewrite length_fmap].
  apply transpose_lookup in Hi as (_ & Hilen & Hi);
    [|by apply Forall_fmap; eapply Forall_impl; [exact Hsel|];
      intros s Hs; simpl in *; rewrite length_fmap].
  rewrite length_fmap in Hvlen. rewrite length_fmap in Hilen.
  repeat split; try done.
  intros qi s Hs.
  assert (is_Some (s !! j)) as [[i v] Hjs].
  { apply lookup_lt_is_Some. rewrite Forall_forall in Hsel.
    rewrite (Hsel s); [done|]. by eapply list_elem_of_lookup_2. }
  exists i, v. split; [done|].
  rewrite Hi, Hv, !list_lookup_fmap, Hs. simpl.
  by rewrite !list_lookup_fmap, Hjs.
Qed.

(** What one slot of a row says, for query number [qi]: the local index of
    a document of the chunk together with the NaN-free score of the query
    against that document. *)
Definition scores_document (self : Self) (sentences : list CorpusItem)
    (r : Row) (qi : nat) : Prop :=
  ∃ name f q i d,
    score_function self = Some name
    ∧ score_functions !! name = Some f
    ∧ query_embeddings self !! qi = Some q
    ∧ sentences !! i = Some d
    ∧ cos_scores_top_k_idx r !! qi = Some (Z.of_nat i)
    ∧ cos_scores_top_k_values r !! qi = Some (nan_to_minus_one (f q (embed_doc d))).

Lemma process_chunk_rows self id sentences rows r :
  process_chunk self id sentences = Ok rows → r ∈ rows →
  batch_index r = id
  ∧ length (cos_scores_top_k_values r) = length (query_embeddings self)
  ∧ length (cos_scores_top_k_idx r) = length (query_embeddings self)
  ∧ ∀ qi, (qi < length (query_embeddings self))%nat →
      scores_document self sentences r qi.
Proof.
  intros (name & f & k0 & sel & Hname & Hf & Hk0 & Hq & Hk & [Hsel Htop] & ->)%process_chunk_Ok
    [j Hj]%list_elem_of_lookup.
  set (k := Z.min (k0 + 1) (len sentences)) in *.
  assert (Forall (λ s : list (nat * fl), length s = Z.to_nat k) sel) as Hlens.
  { apply Forall_forall. intros s [qi Hs]%list_elem_of_lookup.
    destruct (Forall2_lookup_r _ _ _ _ _ Htop Hs) as (row & _ & Hsp).
    apply Hsp. }
  assert (length sel = length (query_embeddings self)) as Hlen.
  { apply Forall2_length in Htop. by rewrite score_matrix_length in Htop. }
  destruct (chunk_rows_lookup _ _ _ _ _ Hlens Hj) as (Hid & Hvl & Hil & Hslot).
  repeat split; try congruence.
  intros qi Hqi.
  destruct (lookup_lt_is_Some_2 sel qi) as [s Hs]; [lia|].
  destruct (Hslot _ _ Hs) as (i & v & Hjs & Hidx & Hval).
  destruct (Forall2_lookup_r _ _ _ _ _ Htop Hs) as (row & Hrow & Hsp).
  apply score_matrix_lookup in Hrow as (q & Hq' & ->).
  destruct Hsp as (_ & _ & Hmem & _).
  pose proof (Hmem i v (list_elem_of_lookup_2 _ _ _ Hjs)) as Hv.
  rewrite !list_lookup_fmap in Hv.
  destruct (sentences !! i) as [d|] eqn:Hd; [|done]. simpl in Hv.
  injection Hv as <-.
  exists name, f, q, i, d. done.
Qed.

(** Local index [i] with value [v] is among the rows' candidates for query
    number [qi]. *)
Definition selected (rows : list Row) (qi i : nat) (v : fl) : Prop :=
  ∃ r, r ∈ rows
     ∧ cos_scores_top_k_idx r !! qi = Some (Z.of_nat i)
     ∧ cos_scores_top_k_values r !! qi = Some v.

Definition chunk_scores (f : E → E → fl) (q : E) (sentences : list CorpusItem) : list fl :=
  (λ d, nan_to_minus_one (f q (embed_doc d))) <$> sentences.

Lemma process_chunk_selected self id sentences rows :
  process_chunk self id sentences = Ok rows →
  ∃ name f k0,
    score_function self = Some name
    ∧ score_functions !! name = Some f
    ∧ top_k self = Some k0
    ∧ (2 ≤ length (query_embeddings self))%nat
    ∧ Z.of_nat (length rows) = Z.min (k0 + 1) (len sentences)
    ∧ ∀ qi q, query_embeddings self !! qi = Some q →
        ∃ sel_q,
          is_topk (chunk_scores f q sentences) (length rows) sel_q
          ∧ ∀ i v, (i, v) ∈ sel_q ↔ selected rows qi i v.
Proof.
  intros (name & f & k0 & sel & Hname & Hf & Hk0 & Hq & Hk & [Hsel Htop] & ->)%process_chunk_Ok.
  set (k := Z.min (k0 + 1) (len sentences)) in *.
  exists name, f, k0. rewrite chunk_rows_length.
  repeat split; try done; [lia|].
  assert (Forall (λ s : list (nat * fl), length s = Z.to_nat k) sel) as Hlens.
  { apply Forall_forall. intros s [qi Hs]%list_elem_of_lookup.
    destruct (Forall2_lookup_r _ _ _ _ _ Htop Hs) as (row & _ & Hsp).
    apply Hsp. }
  intros qi q Hqi.
  assert (replace_nan (score_matrix f (query_embeddings self) (embed_doc <$> sentences)) !! qi
          = Some (chunk_scores f q sentences)) as Hrow.
  { unfold replace_nan, score_matrix, chunk_scores.
    rewrite !list_lookup_fmap, Hqi. simpl. by rewrite <- !list_fmap_compose. }
  destruct (Forall2_lookup_l _ _ _ _ _ Htop Hrow) as (s & Hs & Hspec).
  exists s. split; [done|].
  assert (length s = Z.to_nat k) as Hslen by apply Hspec.
  intros i v. split.
  - intros [p Hp]%list_elem_of_lookup.
    destruct (lookup_lt_is_Some_2
      (add_batch (topk_values k sel) (topk_idx k sel) id) p) as [r Hr].
    { rewrite chunk_rows_length, <- Hslen. by apply lookup_lt_Some in Hp. }
    destruct (chunk_rows_lookup _ _ _ _ _ Hlens Hr) as (_ & _ & _ & Hslot).
    destruct (Hslot _ _ Hs) as (i' & v' & Hp' & Hidx & Hval).
    assert (i' = i ∧ v' = v) as [-> ->] by (split; congruence).
    exists r. split; [by eapply list_elem_of_lookup_2|done].
  - intros (r & [p Hr]%list_elem_of_lookup & Hidx & Hval).
    destruct (chunk_rows_lookup _ _ _ _ _ Hlens Hr) as (_ & _ & _ & Hslot).
    destruct (Hslot _ _ Hs) as (i' & v' & Hp' & Hidx' & Hval').
    assert (i' = i) as -> by (apply Nat2Z.inj; congruence).
    assert (v' = v) as -> by congruence.
    by eapply list_elem_of_lookup_2.
Qed.

(** The worker gets through a chunk as soon as the job is set up for at
    least two queries. *)
Lemma process_chunk_total self name k0 id sentences :
  score_function self = Some name →
  is_Some (score_functions !! name) →
  top_k self = Some k0 → -1 ≤ k0 →
  (2 ≤ length (query_embeddings self))%nat →
  ∃ rows, process_chunk self id sentences = Ok rows.
Proof.
  intros Hname [f Hf] Hk0 Hk Hq. unfold process_chunk. munfold.
  rewrite Hname. simpl. rewrite Hf. simpl. rewrite Hk0. simpl.
  set (m := replace_nan _).
  destruct (lookup_lt_is_Some_2 m 1) as [row1 Hrow1].
  { unfold m. rewrite score_matrix_length. lia. }
  assert (py_getitem m 1 = Ok row1) as -> by by apply py_getitem_nonneg.
  assert (∀ row, row ∈ m → len row = len sentences) as Hrows.
  { intros row [qi Hrow]%list_elem_of_lookup.
    apply score_matrix_lookup in Hrow as (q & _ & ->).
    unfold len. by rewrite !length_fmap. }
  rewrite (Hrows row1) by by eapply list_elem_of_lookup_2.
  destruct (rmapM_total (λ row, topk_row row (Z.min (k0 + 1) (len sentences))) m)
    as [sel Hsel].
  { apply Forall_forall. intros row Hrow. apply topk_row_ok.
    rewrite (Hrows row Hrow). unfold len. lia. }
  unfold topk. rewrite Hsel. eauto.
Qed.

Lemma process_chunk_one_query self name k0 id sentences :
  score_function self = Some name →
  is_Some (score_functions !! name) →
  top_k self = Some k0 →
  (length (query_embeddings self) ≤ 1)%nat →
  process_chunk self id sentences = Raise IndexError.
Proof.
  intros Hname [f Hf] Hk0 Hq. unfold process_chunk. munfold.
  rewrite Hname. simpl. rewrite Hf. simpl. rewrite Hk0. simpl.
  destruct (py_getitem _ 1) as [row1|e] eqn:Hrow1.
  - apply py_getitem_nonneg in Hrow1; [|lia]. apply lookup_lt_Some in Hrow1.
    rewrite score_matrix_length in Hrow1. simpl in Hrow1. lia.
  - by apply py_getitem_Raise in Hrow1 as ->.
Qed.

(** ** The collector's table *)

Definition real_rows (rows : list Row) : list Row :=
  filter (λ r, batch_index r ≠ -1) rows.

Lemma enumerate_elem {A} (l : list A) id x :
  (id, x) ∈ enumerate l ↔ ∃ b : nat, id = Z.of_nat b ∧ l !! b = Some x.
Proof.
  unfold enumerate. rewrite list_elem_of_lookup. split.
  - intros [b Hb]. rewrite list_lookup_imap in Hb.
    destruct (l !! b) eqn:Hl; simplify_eq/=. eauto.
  - intros (b & -> & Hb). exists b. by rewrite list_lookup_imap, Hb.
Qed.

Lemma worker_loop_rows self inputs r :
  r ∈ worker_loop self inputs →
  ∃ id ch rows, (id, ch) ∈ inputs ∧ process_chunk self id ch = Ok rows ∧ r ∈ rows.
Proof.
  induction inputs as [|[id ch] inputs IH]; simpl; [by intros ?%elem_of_nil|].
  destruct (process_chunk self id ch) as [rows|] eqn:Hp; [|by intros ?%elem_of_nil].
  intros [Hr|Hr]%elem_of_app.
  - exists id, ch, rows. split; [left|done].
  - destruct (IH Hr) as (id' & ch' & rows' & Hin & ? & ?).
    exists id', ch', rows'. split; [by right|done].
Qed.

Lemma compute_rows self dl r :
  r ∈ compute self dl →
  r ∈ warmup
  ∨ ∃ (b : nat) ch rows,
      dl !! b = Some ch ∧ process_chunk self (Z.of_nat b) ch = Ok rows ∧ r ∈ rows.
Proof.
  unfold compute. intros (rows & Hr & Hrows)%list_elem_of_join.
  apply list_elem_of_fmap in Hrows as (w & -> & _).
  unfold _encode_multi_process_worker in Hr. apply elem_of_app in Hr as [Hr|Hr]; [by left|right].
  apply worker_loop_rows in Hr as (id & ch & rows & Hin & Hp & Hr).
  unfold inputs_of in Hin. apply list_elem_of_filter in Hin as [_ Hin].
  apply enumerate_elem in Hin as (b & -> & Hb). eauto 6.
Qed.

Lemma real_rows_app l1 l2 : real_rows (l1 ++ l2) = real_rows l1 ++ real_rows l2.
Proof. apply filter_app. Qed.

Lemma real_rows_length l : (length (real_rows l) ≤ length l)%nat.
Proof. apply length_filter. Qed.

Lemma real_rows_elem r rows : r ∈ real_rows rows ↔ batch_index r ≠ -1 ∧ r ∈ rows.
Proof. unfold real_rows. by rewrite list_elem_of_filter. Qed.

Lemma process_chunk_length self id ch rows k0 :
  top_k self = Some k0 → process_chunk self id ch = Ok rows →
  length rows = Z.to_nat (Z.min (k0 + 1) (len ch)).
Proof.
  intros Hk (name & f & k0' & sel & _ & _ & Hk0 & _ & _ & _ & ->)%process_chunk_Ok.
  rewrite chunk_rows_length. congruence.
Qed.

Lemma worker_loop_length self inputs k0 :
  top_k self = Some k0 →
  (length (worker_loop self inputs) ≤ length inputs * Z.to_nat (k0 + 1))%nat.
Proof.
  intros Hk. induction inputs as [|[id ch] inputs IH]; simpl; [lia|].
  destruct (process_chunk self id ch) as [rows|] eqn:Hp; simpl; [|lia].
  rewrite length_app, (process_chunk_length _ _ _ _ _ Hk Hp). lia.
Qed.

Lemma filter_lt_S_length {A} (h : A → nat) (l : list A) m :
  length (filter (λ p, h p < S m)%nat l)
  = (length (filter (λ p, h p < m)%nat l) + length (filter (λ p, h p = m) l))%nat.
Proof.
  induction l as [|x l IH]; [done|].
  rewrite !filter_cons. repeat case_decide; simpl; lia.
Qed.

Lemma real_rows_worker self inputs :
  real_rows (_encode_multi_process_worker self inputs) = real_rows (worker_loop self inputs).
Proof. done. Qed.

Lemma gathered_length self (h : Z * list CorpusItem → nat) inputs k0 m :
  top_k self = Some k0 →
  (length (real_rows (mjoin ((λ w, _encode_multi_process_worker self (filter (λ p, h p = w) inputs))
                               <$> seq 0 m)))
   ≤ length (filter (λ p, h p < m)%nat inputs) * Z.to_nat (k0 + 1))%nat.
Proof.
  intros Hk. induction m as [|m IH]; [simpl; lia|].
  rewrite seq_S, fmap_app, join_app, real_rows_app, length_app.
  rewrite filter_lt_S_length.
  change (0 + m)%nat with m. rewrite list_fmap_singleton.
  change (mjoin [?x]) with (x ++ []). rewrite app_nil_r, real_rows_worker.
  pose proof (real_rows_length (worker_loop self (filter (λ p, h p = m) inputs))).
  pose proof (worker_loop_length self (filter (λ p, h p = m) inputs) k0 Hk).
  lia.
Qed.

(** No more than [top_k + 1] rows per chunk reach the table, warm-up rows
    apart. *)
Lemma compute_length self dl k0 :
  top_k self = Some k0 →
  (length (real_rows (compute self dl)) ≤ length dl * Z.to_nat (k0 + 1))%nat.
Proof.
  intros Hk. unfold compute, inputs_of.
  etrans; [apply (gathered_length self
    (λ p, sched (Z.to_nat p.1) `mod` length (target_devices self))%nat _ k0 _ Hk)|].
  pose proof (length_filter
    (λ p : Z * list CorpusItem,
       sched (Z.to_nat p.1) `mod` length (target_devices self)
       < length (target_devices self))%nat (enumerate dl)) as Hle.
  unfold enumerate in Hle at 2. rewrite length_imap in Hle.
  apply Nat.mul_le_mono_r. exact Hle.
Qed.

(** ** The merge loop *)

Lemma rfold_inv {A B} (f : B → A → result A) (P : A → Prop) l a a' :
  (∀ x b b', x ∈ l → P b → f x b = Ok b' → P b') →
  P a → rfold f l a = Ok a' → P a'.
Proof.
  revert a. induction l as [|x l IH]; intros a Hstep Ha; simpl.
  - by intros [= <-].
  - destruct (f x a) as [b|] eqn:Hf; [|done].
    apply IH.
    + intros y ???. apply Hstep. by right.
    + eapply Hstep; [left|done..].
Qed.

Lemma rfold_app {A B} (f : B → A → result A) l1 l2 a :
  rfold f (l1 ++ l2) a
  = match rfold f l1 a with Ok b => rfold f l2 b | Raise e => Raise e end.
Proof.
  revert a. induction l1 as [|x l1 IH]; intros a; simpl; [done|].
  destruct (f x a); [apply IH|done].
Qed.

Lemma merge_candidate_Ok chunk_size corpus_ids query_itr query_id r res res' :
  merge_candidate chunk_size corpus_ids query_itr query_id r res = Ok res' →
  (batch_index r = -1 ∧ res' = res)
  ∨ (batch_index r ≠ -1
     ∧ ∃ i score corpus_id,
         py_getitem (cos_scores_top_k_idx r) query_itr = Ok i
         ∧ py_getitem (cos_scores_top_k_values r) query_itr = Ok score
         ∧ py_getitem corpus_ids (global_position chunk_size (batch_index r) i)
           = Ok corpus_id
         ∧ ((corpus_id = query_id ∧ res' = res)
            ∨ (corpus_id ≠ query_id
               ∧ ∃ inner, res !! query_id = Some inner
                        ∧ res' = <[query_id := <[corpus_id := score]> inner]> res))).
Proof.
  unfold merge_candidate. munfold.
  destruct (Z.eqb_spec (batch_index r) (-1)) as [Hs|Hs].
  { intros [= <-]. by left. }
  intros Hres. right. split; [done|].
  destruct (py_getitem (cos_scores_top_k_idx r) query_itr) as [i|]; [|done].
  simpl in Hres.
  destruct (py_getitem (cos_scores_top_k_values r) query_itr) as [score|]; [|done].
  simpl in Hres.
  destruct (py_getitem corpus_ids _) as [corpus_id|] eqn:Hc; [|done].
  simpl in Hres. exists i, score, corpus_id.
  split; [done|]. split; [done|]. split; [done|].
  case_bool_decide as Hne.
  - destruct (res !! query_id) as [inner|] eqn:Hin; [|done]. simpl in Hres.
    injection Hres as <-. right. eauto.
  - injection Hres as <-. left. split; [|done].
    by destruct (decide (corpus_id = query_id)).
Qed.

Lemma merge_candidate_sentinel chunk_size corpus_ids query_itr query_id r res :
  batch_index r = -1 →
  merge_candidate chunk_size corpus_ids query_itr query_id r res = Ok res.
Proof. unfold merge_candidate. by intros ->. Qed.

(** The query's own id is never a key of its inner mapping. *)
Definition no_self_match (res : results_t) : Prop :=
  ∀ q m, res !! q = Some m → m !! q = None.

Lemma empty_results_lookup query_ids q m :
  empty_results query_ids !! q = Some m → m = ∅ ∧ q ∈ query_ids.
Proof.
  unfold empty_results. intros H%elem_of_list_to_map_2.
  apply list_elem_of_fmap in H as (q' & [= -> ->] & Hq). done.
Qed.

Lemma empty_results_elem query_ids q :
  q ∈ query_ids → empty_results query_ids !! q = Some ∅.
Proof.
  intros Hq. unfold empty_results.
  destruct (list_to_map _ !! q) as [m|] eqn:Hm.
  - by apply empty_results_lookup in Hm as [-> _].
  - apply not_elem_of_list_to_map in Hm. exfalso. apply Hm.
    rewrite <- list_fmap_compose.
    apply list_elem_of_fmap. by exists q.
Qed.

Lemma merge_candidate_no_self_match chunk_size corpus_ids query_itr query_id r res res' :
  no_self_match res →
  merge_candidate chunk_size corpus_ids query_itr query_id r res = Ok res' →
  no_self_match res'.
Proof.
  intros Hres [[_ ->]|(_ & i & s & c & _ & _ & _ & [[_ ->]|(Hne & inner & Hin & ->)])]%merge_candidate_Ok;
    try done.
  intros q m. destruct (decide (q = query_id)) as [->|Hq].
  - rewrite lookup_insert_eq. intros [= <-].
    rewrite lookup_insert_ne by done. by apply Hres.
  - rewrite lookup_insert_ne by done. apply Hres.
Qed.

Lemma merged_no_self_match chunk_size corpus_ids query_ids n rows res :
  merged chunk_size corpus_ids query_ids n rows = Ok res → no_self_match res.
Proof.
  unfold merged. apply rfold_inv.
  - intros qi b b' _ Hb. unfold merge_query.
    destruct (py_getitem query_ids qi) as [qid|]; [|done].
    apply rfold_inv; [|done].
    intros r ??? H. by apply merge_candidate_no_self_match.
  - intros q m [-> _]%empty_results_lookup. done.
Qed.

Global Instance exn_eq_dec : EqDecision exn.
Proof. solve_decision. Defined.

Global Instance result_eq_dec {A} `{EqDecision A} : EqDecision (result A).
Proof. solve_decision. Defined.

(** How many corpus ids a query has been given. *)
Definition inner_size (res : results_t) (q : string) : nat :=
  from_option size 0%nat (res !! q).

Lemma insert_size_le (m : gmap string fl) c s : (size (<[c := s]> m) ≤ S (size m))%nat.
Proof.
  destruct (m !! c) eqn:Hc.
  - rewrite map_size_insert_Some by eauto. lia.
  - rewrite map_size_insert_None by done. lia.
Qed.

Lemma merge_candidate_size chunk_size corpus_ids query_itr query_id r res res' q :
  merge_candidate chunk_size corpus_ids query_itr query_id r res = Ok res' →
  (inner_size res' q
   ≤ inner_size res q
     + (if decide (batch_index r ≠ (-1)%Z ∧ query_id = q) then 1 else 0))%nat.
Proof.
  intros [[? ->]|(? & i & s & c & _ & _ & _ & [[_ ->]|(Hne & inner & Hin & ->)])]%merge_candidate_Ok;
    try lia.
  unfold inner_size. destruct (decide (query_id = q)) as [->|Hq].
  - rewrite lookup_insert_eq, Hin. simpl.
    pose proof (insert_size_le inner c s). case_decide; [lia|tauto].
  - rewrite lookup_insert_ne by done. lia.
Qed.

Lemma merge_rows_size chunk_size corpus_ids query_itr query_id rows res res' q :
  rfold (merge_candidate chunk_size corpus_ids query_itr query_id) rows res = Ok res' →
  (inner_size res' q
   ≤ inner_size res q
     + (if decide (query_id = q) then length (real_rows rows) else 0))%nat.
Proof.
  revert res. induction rows as [|r rows IH]; intros res; simpl.
  - intros [= <-]. case_decide; simpl; lia.
  - destruct (merge_candidate _ _ _ _ r res) as [res1|] eqn:Hstep; [|done].
    intros Hrest. apply IH in Hrest.
    apply (merge_candidate_size _ _ _ _ _ _ _ q) in Hstep.
    unfold real_rows in *. rewrite filter_cons.
    repeat case_decide; simpl in *; try lia; tauto.
Qed.

Lemma merge_queries_size chunk_size corpus_ids query_ids rows qis res res' q :
  rfold (merge_query chunk_size corpus_ids query_ids rows) qis res = Ok res' →
  (inner_size res' q
   ≤ inner_size res q
     + length (filter (λ qi, py_getitem query_ids qi = Ok q) qis)
       * length (real_rows rows))%nat.
Proof.
  revert res. induction qis as [|qi qis IH]; intros res; simpl.
  - intros [= <-]. lia.
  - unfold merge_query at 1.
    destruct (py_getitem query_ids qi) as [qid|] eqn:Hqid; [|done].
    destruct (rfold _ rows res) as [res1|] eqn:Hrows; [|done].
    intros Hrest. apply IH in Hrest.
    apply (merge_rows_size _ _ _ _ _ _ _ q) in Hrows.
    rewrite filter_cons.
    destruct (decide (qid = q)) as [->|Hne].
    + rewrite decide_True by done. simpl. lia.
    + rewrite decide_False by congruence. lia.
Qed.

Lemma filter_unique_length {A} (P : A → Prop) `{∀ x, Decision (P x)} (l : list A) :
  NoDup l → (∀ x y, x ∈ l → y ∈ l → P x → P y → x = y) →
  (length (filter P l) ≤ 1)%nat.
Proof.
  induction 1 as [|x l Hx Hnd IH]; intros Huniq; [simpl; lia|].
  rewrite filter_cons. case_decide as HP; simpl.
  - assert (filter P l = []) as ->; [|simpl; lia].
    destruct (filter P l) as [|y k] eqn:Hf; [done|].
    assert (y ∈ filter P l) as [HPy Hy]%list_elem_of_filter by (rewrite Hf; left).
    exfalso. apply Hx. by rewrite (Huniq x y); [|left|right|..].
  - apply IH. intros y z ??. apply Huniq; by right.
Qed.

Lemma range_NoDup n : NoDup (range n).
Proof. unfold range. apply NoDup_fmap_2; [apply _|apply NoDup_seq]. Qed.

Lemma query_index_unique (query_ids : list string) n q :
  NoDup query_ids →
  (length (filter (λ qi, py_getitem query_ids qi = Ok q) (range n)) ≤ 1)%nat.
Proof.
  intros Hnd. apply filter_unique_length; [apply range_NoDup|].
  intros x y Hx%range_elem Hy%range_elem Hqx Hqy.
  apply py_getitem_nonneg in Hqx; [|lia]. apply py_getitem_nonneg in Hqy; [|lia].
  pose proof (NoDup_lookup _ _ _ _ Hnd Hqx Hqy). lia.
Qed.

Lemma inner_size_empty query_ids q : inner_size (empty_results query_ids) q = 0%nat.
Proof.
  unfold inner_size. destruct (empty_results query_ids !! q) as [m|] eqn:Hm; [|done].
  by apply empty_results_lookup in Hm as [-> _].
Qed.

(** Every query keeps at most one corpus id per row of the table, warm-up
    rows apart. *)
Lemma merged_size chunk_size corpus_ids query_ids n rows res q m :
  NoDup query_ids →
  merged chunk_size corpus_ids query_ids n rows = Ok res →
  res !! q = Some m → (size m ≤ length (real_rows rows))%nat.
Proof.
  intros Hnd Hres Hq. unfold merged in Hres.
  apply (merge_queries_size _ _ _ _ _ _ _ q) in Hres.
  rewrite inner_size_empty in Hres.
  pose proof (query_index_unique query_ids n q Hnd).
  unfold inner_size in Hres. rewrite Hq in Hres. simpl in Hres. nia.
Qed.

(** Where an entry of the result mapping comes from: a row that is not a
    warm-up row, read at the query's index, whose local index resolves
    through [global_position] to the corpus id. *)
Definition resolved (chunk_size : Z) (corpus_ids query_ids : list string)
    (rows : list Row) (q c : string) (s : fl) : Prop :=
  ∃ r qi i,
    r ∈ rows ∧ batch_index r ≠ -1
    ∧ 0 ≤ qi ∧ py_getitem query_ids qi = Ok q
    ∧ py_getitem (cos_scores_top_k_idx r) qi = Ok i
    ∧ py_getitem (cos_scores_top_k_values r) qi = Ok s
    ∧ py_getitem corpus_ids (global_position chunk_size (batch_index r) i) = Ok c
    ∧ c ≠ q.

Definition all_resolved (chunk_size : Z) (corpus_ids query_ids : list string)
    (rows : list Row) (res : results_t) : Prop :=
  ∀ q m c s, res !! q = Some m → m !! c = Some s →
    resolved chunk_size corpus_ids query_ids rows q c s.

Lemma merge_candidate_resolved chunk_size corpus_ids query_ids rows qi qid r res res' :
  r ∈ rows → 0 ≤ qi → py_getitem query_ids qi = Ok qid →
  all_resolved chunk_size corpus_ids query_ids rows res →
  merge_candidate chunk_size corpus_ids qi qid r res = Ok res' →
  all_resolved chunk_size corpus_ids query_ids rows res'.
Proof.
  intros Hr Hqi Hqid Hres
    [[_ ->]|(Hreal & i & s & c & Hi & Hs & Hc & [[_ ->]|(Hne & inner & Hin & ->)])]%merge_candidate_Ok;
    try done.
  intros q m c' s'. destruct (decide (q = qid)) as [->|Hq].
  - rewrite lookup_insert_eq. intros [= <-].
    destruct (decide (c' = c)) as [->|Hc'].
    + rewrite lookup_insert_eq. intros [= <-]. exists r, qi, i. done.
    + rewrite lookup_insert_ne by done. by apply Hres.
  - rewrite lookup_insert_ne by done. apply Hres.
Qed.

Lemma merged_resolved chunk_size corpus_ids query_ids n rows res :
  merged chunk_size corpus_ids query_ids n rows = Ok res →
  all_resolved chunk_size corpus_ids query_ids rows res.
Proof.
  unfold merged. apply rfold_inv.
  - intros qi b b' Hqi%range_elem Hb. unfold merge_query.
    destruct (py_getitem query_ids qi) as [qid|] eqn:Hqid; [|done].
    apply rfold_inv; [|done].
    intros r ?? Hr ?. apply merge_candidate_resolved; [done|lia|done..].
  - intros q m c s [-> _]%empty_results_lookup. by rewrite lookup_empty.
Qed.

(** Keys are only ever added. *)
Definition grows (res res' : results_t) : Prop :=
  ∀ q m, res !! q = Some m →
    ∃ m', res' !! q = Some m' ∧ ∀ c, is_Some (m !! c) → is_Some (m' !! c).

Lemma grows_refl res : grows res res.
Proof. intros q m ?. eauto. Qed.

Lemma grows_trans r1 r2 r3 : grows r1 r2 → grows r2 r3 → grows r1 r3.
Proof.
  intros H12 H23 q m Hq. destruct (H12 _ _ Hq) as (m2 & Hq2 & Hk2).
  destruct (H23 _ _ Hq2) as (m3 & Hq3 & Hk3). eauto.
Qed.

Lemma merge_candidate_grows chunk_size corpus_ids qi qid r res res' :
  merge_candidate chunk_size corpus_ids qi qid r res = Ok res' → grows res res'.
Proof.
  intros [[_ ->]|(_ & i & s & c & _ & _ & _ & [[_ ->]|(Hne & inner & Hin & ->)])]%merge_candidate_Ok;
    try apply grows_refl.
  intros q m Hq. destruct (decide (q = qid)) as [->|Hne'].
  - rewrite lookup_insert_eq. eexists; split; [done|].
    intros c' Hc'. assert (m = inner) as -> by congruence.
    destruct (decide (c' = c)) as [->|?].
    + rewrite lookup_insert_eq. eauto.
    + by rewrite lookup_insert_ne.
  - rewrite lookup_insert_ne by done. eauto.
Qed.

Lemma merge_rows_grows chunk_size corpus_ids qi qid rows res res' :
  rfold (merge_candidate chunk_size corpus_ids qi qid) rows res = Ok res' →
  grows res res'.
Proof.
  revert res. induction rows as [|r rows IH]; intros res; simpl.
  - intros [= <-]. apply grows_refl.
  - destruct (merge_candidate _ _ _ _ r res) as [res1|] eqn:Hstep; [|done].
    intros Hrest. eapply grows_trans; [by eapply merge_candidate_grows|by apply IH].
Qed.

Lemma merge_queries_grows chunk_size corpus_ids query_ids rows qis res res' :
  rfold (merge_query chunk_size corpus_ids query_ids rows) qis res = Ok res' →
  grows res res'.
Proof.
  revert res. induction qis as [|qi qis IH]; intros res; simpl.
  - intros [= <-]. apply grows_refl.
  - unfold merge_query at 1.
    destruct (py_getitem query_ids qi) as [qid|]; [|done].
    destruct (rfold _ rows res) as [res1|] eqn:Hrows; [|done].
    intros Hrest. eapply grows_trans; [by eapply merge_rows_grows|by apply IH].
Qed.

(** The candidate a row holds for a query, once resolved, is a key of that
    query's mapping unless it is the query itself. *)
Definition kept (res : results_t) (q c : string) : Prop :=
  ∃ m, res !! q = Some m ∧ is_Some (m !! c).

Lemma kept_grows res res' q c : grows res res' → kept res q c → kept res' q c.
Proof.
  intros Hg (m & Hq & Hc). destruct (Hg _ _ Hq) as (m' & Hq' & Hk).
  exists m'. eauto.
Qed.

Lemma merge_rows_kept chunk_size corpus_ids qi qid rows res res' r i c :
  rfold (merge_candidate chunk_size corpus_ids qi qid) rows res = Ok res' →
  r ∈ rows → batch_index r ≠ -1 →
  py_getitem (cos_scores_top_k_idx r) qi = Ok i →
  py_getitem corpus_ids (global_position chunk_size (batch_index r) i) = Ok c →
  c ≠ qid → kept res' qid c.
Proof.
  intros Hfold Hr Hreal Hi Hc Hne. revert res Hfold.
  induction rows as [|r' rows IH]; intros res; simpl; [by apply elem_of_nil in Hr|].
  destruct (merge_candidate _ _ _ _ r' res) as [res1|] eqn:Hstep; [|done].
  apply elem_of_cons in Hr as [<-|Hr]; [|by apply IH].
  intros Hrest%merge_rows_grows. eapply kept_grows; [exact Hrest|].
  apply merge_candidate_Ok in Hstep
    as [[? _]|(_ & i' & s & c' & Hi' & _ & Hc' & Hcase)]; [done|].
  assert (i' = i) as -> by congruence. assert (c' = c) as -> by congruence.
  destruct Hcase as [[? _]|(_ & inner & Hin & ->)]; [done|].
  eexists. rewrite !lookup_insert_eq. eauto.
Qed.

Lemma merge_queries_kept chunk_size corpus_ids query_ids rows qis res res' qi qid r i c :
  rfold (merge_query chunk_size corpus_ids query_ids rows) qis res = Ok res' →
  qi ∈ qis → py_getitem query_ids qi = Ok qid →
  r ∈ rows → batch_index r ≠ -1 →
  py_getitem (cos_scores_top_k_idx r) qi = Ok i →
  py_getitem corpus_ids (global_position chunk_size (batch_index r) i) = Ok c →
  c ≠ qid → kept res' qid c.
Proof.
  intros Hfold Hqi Hqid Hr Hreal Hi Hc Hne. revert res Hfold.
  induction qis as [|qi' qis IH]; intros res; simpl; [by apply elem_of_nil in Hqi|].
  destruct (merge_query _ _ _ _ qi' res) as [res1|] eqn:Hstep; [|done].
  apply elem_of_cons in Hqi as [<-|Hqi]; [|by apply IH].
  intros Hrest%merge_queries_grows. eapply kept_grows; [exact Hrest|].
  unfold merge_query in Hstep. rewrite Hqid in Hstep.
  by eapply merge_rows_kept.
Qed.

(** The outer keys stay those of the initial dictionary. *)
Lemma merge_candidate_dom chunk_size corpus_ids qi qid r res res' :
  merge_candidate chunk_size corpus_ids qi qid r res = Ok res' → dom res' = dom res.
Proof.
  intros [[_ ->]|(_ & i & s & c & _ & _ & _ & [[_ ->]|(Hne & inner & Hin & ->)])]%merge_candidate_Ok;
    try done.
  apply dom_insert_lookup_L. eauto.
Qed.

Lemma empty_results_dom query_ids : dom (empty_results query_ids) = list_to_set query_ids.
Proof.
  apply set_eq. intros q. rewrite elem_of_dom, elem_of_list_to_set. split.
  - intros [m Hm]. by apply empty_results_lookup in Hm as [_ ?].
  - intros Hq. rewrite empty_results_elem by done. eauto.
Qed.

Lemma merged_dom chunk_size corpus_ids query_ids n rows res :
  merged chunk_size corpus_ids query_ids n rows = Ok res →
  dom res = list_to_set query_ids.
Proof.
  unfold merged. apply (rfold_inv _ (λ res, dom res = list_to_set query_ids)).
  - intros qi b b' _ Hb. unfold merge_query.
    destruct (py_getitem query_ids qi) as [qid|]; [|done].
    apply (rfold_inv _ (λ res, dom res = list_to_set query_ids)); [|done].
    intros r ?? _ <-. apply merge_candidate_dom.
  - apply empty_results_dom.
Qed.

(** When the merge loop gets through. *)
Lemma rfold_total {A B} (f : B → A → result A) (I : A → Prop) l a :
  (∀ x b, x ∈ l → I b → ∃ b', f x b = Ok b' ∧ I b') →
  I a → ∃ a', rfold f l a = Ok a' ∧ I a'.
Proof.
  revert a. induction l as [|x l IH]; intros a Hstep Ha; simpl; [eauto|].
  destruct (Hstep x a) as (b & -> & Hb); [left|done|].
  apply IH; [|done]. intros y ???. apply Hstep; [by right|done].
Qed.

Definition readable (chunk_size : Z) (corpus_ids : list string) (n_queries : Z)
    (r : Row) : Prop :=
  batch_index r ≠ -1 →
  ∀ qi, 0 ≤ qi < n_queries →
    ∃ i s c,
      py_getitem (cos_scores_top_k_idx r) qi = Ok i
      ∧ py_getitem (cos_scores_top_k_values r) qi = Ok s
      ∧ py_getitem corpus_ids (global_position chunk_size (batch_index r) i) = Ok c.

Lemma merged_total chunk_size corpus_ids query_ids n rows :
  n ≤ len query_ids →
  Forall (readable chunk_size corpus_ids n) rows →
  ∃ res, merged chunk_size corpus_ids query_ids n rows = Ok res.
Proof.
  intros Hn Hrows. unfold merged.
  destruct (rfold_total (merge_query chunk_size corpus_ids query_ids rows)
              (λ res, dom res = list_to_set query_ids)
              (range n) (empty_results query_ids)) as (res & Hres & _);
    [|apply empty_results_dom|eauto].
  intros qi res Hqi%range_elem Hdom. unfold merge_query.
  destruct (lookup_lt_is_Some_2 query_ids (Z.to_nat qi)) as [qid Hqid].
  { unfold len in Hn. lia. }
  assert (py_getitem query_ids qi = Ok qid) as -> by (apply py_getitem_nonneg; [lia|done]).
  apply (rfold_total _ (λ res, dom res = list_to_set query_ids)); [|done].
  intros r b Hr Hb.
  destruct (decide (batch_index r = -1)) as [Hs|Hreal].
  { rewrite merge_candidate_sentinel by done. eauto. }
  rewrite Forall_forall in Hrows.
  destruct (Hrows r Hr Hreal qi Hqi) as (i & s & c & Hi & Hs & Hc).
  assert (is_Some (b !! qid)) as [inner Hinner].
  { apply elem_of_dom. rewrite Hb, elem_of_list_to_set.
    by eapply list_elem_of_lookup_2. }
  unfold merge_candidate. munfold.
  destruct (Z.eqb_spec (batch_index r) (-1)); [done|].
  rewrite Hi. simpl. rewrite Hs. simpl. rewrite Hc. simpl.
  case_bool_decide; [|eauto].
  rewrite Hinner. simpl. eexists. split; [done|].
  rewrite <- Hb. apply dom_insert_lookup_L. eauto.
Qed.

(** ** The phases of [search], run *)

Lemma forM_emit_ret {A B} (g : A → event) (h : A → B) l w :
  forM l (λ x, emit (g x);; mret (h x)) w
  = ({| obj := obj w; trace := trace w ++ (g <$> l) |}, Ok (h <$> l)).
Proof.
  revert w. induction l as [|x l IH]; intros w; simpl; munfold.
  - rewrite app_nil_r. by destruct w.
  - simpl. rewrite IH. simpl. by rewrite <- app_assoc.
Qed.

Definition query_events (queries_dl : list (list QueryItem)) : list event :=
  (λ b : list QueryItem, EncodeQueries (q_text <$> b)) <$> queries_dl.

Lemma encode_queries_run queries_dl w :
  encode_queries queries_dl w
  = ({| obj := obj w; trace := trace w ++ query_events queries_dl |},
     torch_cat ((λ b : list QueryItem, embed_query <$> (q_text <$> b)) <$> queries_dl)).
Proof.
  unfold encode_queries.
  pose proof (forM_emit_ret (λ b : list QueryItem, EncodeQueries (q_text <$> b))
             (λ b : list QueryItem, embed_query <$> (q_text <$> b)) queries_dl w) as H.
  munfold. simpl in *. by rewrite H.
Qed.

Lemma torch_cat_chunks (n : nat) (queries : list QueryItem) :
  (0 < n)%nat → queries ≠ [] →
  torch_cat ((λ b : list QueryItem, embed_query <$> (q_text <$> b)) <$> chunks n queries)
  = Ok (embed_query <$> (q_text <$> queries)).
Proof.
  intros Hn Hq. unfold torch_cat.
  destruct (_ <$> chunks n queries) as [|b bs] eqn:Hch.
  { apply fmap_nil_inv in Hch. by apply chunks_nil in Hch. }
  rewrite <- Hch. f_equal.
  transitivity (mjoin ((λ t : list string, embed_query <$> t) <$>
                  ((λ b : list QueryItem, q_text <$> b) <$> chunks n queries))).
  { f_equal. by rewrite <- list_fmap_compose. }
  by rewrite !join_fmap_fmap, join_chunks.
Qed.

Definition dispatch_events (self : Self) (corpus_dl : list (list CorpusItem)) : list event :=
  [StartPool (target_devices self)]
  ++ ((λ p : Z * list CorpusItem, EncodeCorpus p.1) <$> enumerate corpus_dl)
  ++ [StopPool].

Lemma dispatch_run corpus_size chunk_size corpus_dl w :
  chunk_size ≠ 0 →
  dispatch corpus_size chunk_size corpus_dl w
  = ({| obj := obj w; trace := trace w ++ dispatch_events (obj w) corpus_dl |}, Ok ()).
Proof.
  intros Hcs. unfold dispatch, floordiv, dispatch_events. munfold. simpl.
  destruct (Z.eqb_spec chunk_size 0); [done|].
  rewrite (forM_emit (λ p : Z * list CorpusItem, EncodeCorpus p.1)). simpl.
  by rewrite <- !app_assoc.
Qed.

(** The chunk size asked for before the clamp of line 78. *)
Definition requested_chunk_size (self : Self) (corpus_size : Z) : result Z :=
  match corpus_chunk_size self with
  | None =>
      match ceil_div10 corpus_size (len (target_devices self)) with
      | Ok d => Ok (Z.min d 5000)
      | Raise e => Raise e
      end
  | Some c => Ok c
  end.

Lemma set_corpus_chunk_size_twice a b self :
  set_corpus_chunk_size a (set_corpus_chunk_size b self) = set_corpus_chunk_size a self.
Proof. done. Qed.

Lemma normalize_chunk_size_run corpus_size w :
  normalize_chunk_size corpus_size w
  = match requested_chunk_size (obj w) corpus_size with
    | Ok c =>
        ({| obj := set_corpus_chunk_size (Z.min c (corpus_size - 1)) (obj w);
            trace := trace w |},
         Ok (Z.min c (corpus_size - 1)))
    | Raise e => (w, Raise e)
    end.
Proof.
  unfold normalize_chunk_size, requested_chunk_size. munfold. simpl.
  destruct (corpus_chunk_size (obj w)); simpl; [done|].
  by destruct (ceil_div10 _ _).
Qed.

Lemma check_score_function_run name w :
  check_score_function name w
  = (w, if bool_decide (name = "cos_sim" ∨ name = "dot") then Ok ()
        else Raise (score_function_error name)).
Proof.
  unfold check_score_function, score_functions.
  rewrite dom_insert_L, dom_singleton_L.
  destruct (bool_decide_reflect (name ∈ ({["cos_sim"]} ∪ {["dot"]} : gset string)))
    as [Hin|Hout]; munfold.
  - rewrite bool_decide_eq_true_2; [done|]. set_solver.
  - rewrite bool_decide_eq_false_2; [done|]. set_solver.
Qed.

(** The job as it stands when the workers run and the table is merged. *)
Definition job_self (self : Self) (queries : list QueryItem) (top_k : Z)
    (score_function : string) : Self :=
  set_job (embed_query <$> (q_text <$> queries)) top_k score_function self.

Definition job_rows (self : Self) (chunk_size : Z) (corpus : list CorpusItem)
    (queries : list QueryItem) (top_k : Z) (score_function : string) : list Row :=
  compute (job_self self queries top_k score_function)
    (chunks (Z.to_nat chunk_size) (prepare_corpus self corpus)).

Definition job_merged (self : Self) (chunk_size : Z) (corpus : list CorpusItem)
    (queries : list QueryItem) (top_k : Z) (score_function : string)
    : result results_t :=
  merged chunk_size (c_id <$> prepare_corpus self corpus) (q_id <$> queries)
    (len queries) (job_rows self chunk_size corpus queries top_k score_function).

Definition job_events (self : Self) (chunk_size : Z) (corpus : list CorpusItem)
    (queries : list QueryItem) : list event :=
  query_events (chunks (Z.to_nat chunk_size) queries)
  ++ dispatch_events self (chunks (Z.to_nat chunk_size) (prepare_corpus self corpus))
  ++ [Compute].

Lemma search_job_run chunk_size corpus queries top_k name w :
  0 < chunk_size → queries ≠ [] →
  ∃ res',
    search_job chunk_size corpus queries top_k name w
    = ({| obj := set_results res' (job_self (obj w) queries top_k name);
          trace := trace w ++ job_events (obj w) chunk_size corpus queries |},
       job_merged (obj w) chunk_size corpus queries top_k name)
    ∧ ∀ res, job_merged (obj w) chunk_size corpus queries top_k name = Ok res →
        res' = res.
Proof.
  intros Hcs Hq. unfold search_job, DataLoader.
  destruct (Z.leb_spec chunk_size 0) as [|_]; [lia|].
  munfold. simpl. rewrite encode_queries_run.
  rewrite torch_cat_chunks by (done || lia). simpl.
  rewrite dispatch_run by lia. simpl.
  set (self1 := set_job _ _ _ _).
  set (rows := compute self1 _).
  set (w1 := {| obj := self1; trace := _ |}).
  destruct (merge_run chunk_size (c_id <$> prepare_corpus (obj w) corpus)
              (q_id <$> queries) (len (embed_query <$> (q_text <$> queries)))
              rows w1) as (res' & Hrun & Hres).
  rewrite Hrun. unfold job_merged, job_rows, job_self. fold self1. fold rows.
  replace (len (embed_query <$> (q_text <$> queries))) with (len queries) in *
    by (unfold len; by rewrite !length_fmap).
  exists res'. split; [|done].
  destruct (merged _ _ _ _ rows) as [res|e] eqn:Hm; simpl.
  - rewrite <- (Hres res eq_refl).
    unfold with_results, w1, job_events, dispatch_events. simpl.
    do 2 f_equal. rewrite <- !app_assoc. simpl. by rewrite <- !app_assoc.
  - unfold with_results, w1, job_events, dispatch_events. simpl.
    do 2 f_equal. rewrite <- !app_assoc. simpl. by rewrite <- !app_assoc.
Qed.

Lemma search_job_small chunk_size corpus queries top_k name w :
  chunk_size ≤ 0 →
  search_job chunk_size corpus queries top_k name w
  = (w, Raise (ValueError "batch_size should be a positive integer value")).
Proof.
  intros Hcs. unfold search_job, DataLoader.
  destruct (Z.leb_spec chunk_size 0) as [_|]; [|lia]. by munfold.
Qed.

Lemma chunks_of_nil {A} (n : nat) : (0 < n)%nat → chunks n (@nil A) = [].
Proof.
  intros Hn. unfold chunks. simpl.
  replace ((n - 1) `div` n)%nat with 0%nat; [done|].
  symmetry. apply Nat.div_small. lia.
Qed.

Lemma search_job_no_queries chunk_size corpus top_k name w :
  0 < chunk_size →
  search_job chunk_size corpus [] top_k name w = (w, Raise RuntimeError).
Proof.
  intros Hcs. unfold search_job, DataLoader.
  destruct (Z.leb_spec chunk_size 0) as [|_]; [lia|].
  munfold. simpl. rewrite encode_queries_run.
  rewrite chunks_of_nil by lia. simpl. rewrite app_nil_r. by destruct w.
Qed.

Lemma search_job_Ok chunk_size corpus queries top_k name w w' res :
  search_job chunk_size corpus queries top_k name w = (w', Ok res) →
  0 < chunk_size ∧ queries ≠ []
  ∧ job_merged (obj w) chunk_size corpus queries top_k name = Ok res
  ∧ w' = {| obj := set_results res (job_self (obj w) queries top_k name);
            trace := trace w ++ job_events (obj w) chunk_size corpus queries |}.
Proof.
  intros Hrun.
  destruct (Z.leb_spec chunk_size 0) as [Hle|Hlt].
  { by rewrite search_job_small in Hrun. }
  destruct queries as [|query queries].
  { by rewrite search_job_no_queries in Hrun. }
  destruct (search_job_run chunk_size corpus (query :: queries) top_k name w)
    as (res' & Heq & Hres); [done..|].
  rewrite Heq in Hrun. injection Hrun as <- Hm.
  rewrite (Hres _ Hm). done.
Qed.

(** Nothing in lines 80 to 145 assigns [self.corpus_chunk_size]. *)
Lemma search_job_chunk_size chunk_size corpus queries top_k name w w' r :
  search_job chunk_size corpus queries top_k name w = (w', r) →
  corpus_chunk_size (obj w') = corpus_chunk_size (obj w).
Proof.
  intros Hrun.
  destruct (Z.leb_spec chunk_size 0) as [Hle|Hlt].
  { rewrite search_job_small in Hrun by done. by injection Hrun as <- _. }
  destruct queries as [|query queries].
  { rewrite search_job_no_queries in Hrun by done. by injection Hrun as <- _. }
  destruct (search_job_run chunk_size corpus (query :: queries) top_k name w)
    as (res' & Heq & _); [done..|].
  rewrite Heq in Hrun. by injection Hrun as <- _.
Qed.

Definition known_score_function (name : string) : Prop :=
  name = "cos_sim" ∨ name = "dot".

Lemma search_run corpus queries top_k name self :
  run (search corpus queries top_k name) self
  = if bool_decide (known_score_function name) then
      match requested_chunk_size self (len corpus) with
      | Ok c =>
          search_job (Z.min c (len corpus - 1)) corpus queries top_k name
            {| obj := set_corpus_chunk_size (Z.min c (len corpus - 1)) self;
               trace := [] |}
      | Raise e => ({| obj := self; trace := [] |}, Raise e)
      end
    else ({| obj := self; trace := [] |}, Raise (score_function_error name)).
Proof.
  unfold run, search. unfold mbind at 1, M_bind at 1.
  rewrite check_score_function_run. unfold known_score_function.
  case_bool_decide; [|done].
  unfold mbind at 1, M_bind at 1. rewrite normalize_chunk_size_run. simpl.
  by destruct (requested_chunk_size self (len corpus)).
Qed.

Lemma search_Ok corpus queries top_k name self w res :
  run (search corpus queries top_k name) self = (w, Ok res) →
  known_score_function name
  ∧ ∃ c, requested_chunk_size self (len corpus) = Ok c
       ∧ 0 < Z.min c (len corpus - 1)
       ∧ queries ≠ []
       ∧ job_merged (set_corpus_chunk_size (Z.min c (len corpus - 1)) self)
           (Z.min c (len corpus - 1)) corpus queries top_k name = Ok res
       ∧ w = {| obj := set_results res
                         (job_self (set_corpus_chunk_size (Z.min c (len corpus - 1)) self)
                            queries top_k name);
                trace := job_events
                           (set_corpus_chunk_size (Z.min c (len corpus - 1)) self)
                           (Z.min c (len corpus - 1)) corpus queries |}.
Proof.
  rewrite search_run. case_bool_decide as Hname; [|done].
  destruct (requested_chunk_size self (len corpus)) as [c|] eqn:Hc; [|done].
  intros (Hcs & Hq & Hm & ->)%search_job_Ok. eauto 10.
Qed.

(** ** Rows of a job, traced back to chunks and documents *)

Lemma score_functions_lookup name f :
  score_functions !! name = Some f →
  known_score_function name
  ∧ f = if decide (name = "cos_sim") then cos_sim else dot_score.
Proof.
  unfold score_functions, known_score_function. intros H.
  apply lookup_insert_Some in H as [[<- <-]|[Hne H]].
  { split; [by left|]. by rewrite decide_True. }
  apply lookup_singleton_Some in H as [<- <-].
  split; [by right|]. by rewrite decide_False.
Qed.

Lemma score_functions_known name :
  known_score_function name → is_Some (score_functions !! name).
Proof. unfold score_functions. intros [-> | ->]; eauto. Qed.

Lemma warmup_sentinel r : r ∈ warmup → batch_index r = -1.
Proof. unfold warmup. by intros ->%list_elem_of_singleton. Qed.

Lemma job_rows_real self chunk_size corpus queries top_k name r :
  r ∈ job_rows self chunk_size corpus queries top_k name → batch_index r ≠ -1 →
  ∃ (b : nat) chunk f,
    batch_index r = Z.of_nat b
    ∧ chunks (Z.to_nat chunk_size) (prepare_corpus self corpus) !! b = Some chunk
    ∧ score_functions !! name = Some f
    ∧ length (cos_scores_top_k_values r) = length queries
    ∧ length (cos_scores_top_k_idx r) = length queries
    ∧ ∀ qi query, queries !! qi = Some query →
        ∃ j doc,
          chunk !! j = Some doc
          ∧ cos_scores_top_k_idx r !! qi = Some (Z.of_nat j)
          ∧ cos_scores_top_k_values r !! qi
            = Some (nan_to_minus_one (f (embed_query (q_text query)) (embed_doc doc))).
Proof.
  unfold job_rows. intros [Hw|(b & chunk & rows & Hb & Hp & Hr)]%compute_rows Hreal.
  { by apply warmup_sentinel in Hw. }
  destruct (process_chunk_rows _ _ _ _ _ Hp Hr) as (Hid & Hvl & Hil & Hdoc).
  simpl in Hvl, Hil, Hdoc. rewrite !length_fmap in Hvl, Hil, Hdoc.
  assert (∃ f, score_functions !! name = Some f) as [f Hf].
  { apply process_chunk_Ok in Hp as (name' & f & _ & _ & Hn & Hf & _).
    simpl in Hn. injection Hn as <-. eauto. }
  exists b, chunk, f. repeat split; try done.
  intros qi query Hq.
  destruct (Hdoc qi) as (name' & f' & q & j & doc & Hn & Hf' & Hqe & Hj & Hidx & Hval).
  { by apply lookup_lt_Some in Hq. }
  simpl in Hn, Hqe. injection Hn as <-.
  rewrite !list_lookup_fmap, Hq in Hqe. simpl in Hqe. injection Hqe as <-.
  assert (f' = f) as -> by congruence.
  exists j, doc. done.
Qed.

Lemma prepare_corpus_length self corpus :
  length (prepare_corpus self corpus) = length corpus.
Proof.
  unfold prepare_corpus, sort_by_len. destruct (sort_corpus self); [|done].
  apply Permutation_length, merge_sort_Permutation.
Qed.

Lemma prepare_corpus_perm self corpus : prepare_corpus self corpus ≡ₚ corpus.
Proof.
  unfold prepare_corpus, sort_by_len. destruct (sort_corpus self); [|done].
  apply merge_sort_Permutation.
Qed.

(** The arithmetic of line 139 on a local index of a chunk. *)
Lemma global_position_chunk {A} (n : nat) (l : list A) (b j : nat) ch x :
  chunks n l !! b = Some ch → ch !! j = Some x →
  l !! Z.to_nat (global_position (Z.of_nat n) (Z.of_nat b) (Z.of_nat j)) = Some x.
Proof.
  intros Hb Hj. destruct (chunks_item _ _ _ _ _ _ Hb Hj) as [Hx _].
  unfold global_position.
  replace (Z.to_nat (Z.of_nat j + Z.of_nat b * Z.of_nat n)) with (j + b * n)%nat by lia.
  done.
Qed.

(** ** Properties of [search] *)

(** C3. Self-match suppression: in the mapping [search] returns, a query's
    own id is never a key of that query's inner mapping, whatever the
    chunking of the corpus. *)
Theorem search_no_self_match self corpus queries top_k name w res :
  run (search corpus queries top_k name) self = (w, Ok res) →
  ∀ q m, res !! q = Some m → m !! q = None.
Proof.
  intros (_ & c & _ & _ & _ & Hm & _)%search_Ok.
  unfold job_merged in Hm. by apply merged_no_self_match in Hm.
Qed.

(** C1, as the code has it. The merge keeps every candidate of every chunk:
    with distinct query ids, a query's inner mapping holds at most
    [top_k + 1] corpus ids per chunk the corpus was split into, and nothing
    cuts it down to [top_k]. *)
Theorem search_result_size self corpus queries top_k name w res q m :
  NoDup (q_id <$> queries) →
  run (search corpus queries top_k name) self = (w, Ok res) →
  res !! q = Some m →
  ∃ chunk_size,
    corpus_chunk_size (obj w) = Some chunk_size
    ∧ (size m ≤ length (chunks (Z.to_nat chunk_size) corpus) * Z.to_nat (top_k + 1))%nat.
Proof.
  intros Hnd (_ & c & _ & _ & _ & Hm & ->)%search_Ok Hq.
  exists (Z.min c (len corpus - 1)). split; [done|].
  unfold job_merged in Hm.
  pose proof (merged_size _ _ _ _ _ _ _ _ Hnd Hm Hq) as Hsize.
  etrans; [exact Hsize|]. unfold job_rows.
  etrans; [by apply (compute_length _ _ top_k)|].
  by rewrite !chunks_length, prepare_corpus_length.
Qed.

Lemma forM_ext {A} (l : list A) (f g : A → M unit) w :
  (∀ x w', f x w' = g x w') → forM_ l f w = forM_ l g w.
Proof.
  intros Hfg. revert w. induction l as [|x l IH]; intros w; simpl; [done|].
  munfold. rewrite Hfg. destruct (g x w) as [w' [[]|e]]; [apply IH|done].
Qed.

Lemma forM_real_rows chunk_size corpus_ids query_itr query_id rows w :
  forM_ rows (λ r, update_results
    (merge_candidate chunk_size corpus_ids query_itr query_id r)) w
  = forM_ (real_rows rows) (λ r, update_results
      (merge_candidate chunk_size corpus_ids query_itr query_id r)) w.
Proof.
  revert w. induction rows as [|r rows IH]; intros w; [done|].
  unfold real_rows. rewrite filter_cons. fold (real_rows rows).
  case_decide as Hr; simpl; munfold.
  - destruct (update_results _ w) as [w' [[]|e]]; [apply IH|done].
  - unfold update_results at 1.
    rewrite merge_candidate_sentinel by (by destruct (decide (batch_index r = -1))).
    fold (with_results (results (obj w)) w). rewrite with_results_id. apply IH.
Qed.

Lemma worker_loop_real self inputs :
  Forall (λ p : Z * list CorpusItem, 0 ≤ p.1) inputs →
  Forall (λ r, batch_index r ≠ -1) (worker_loop self inputs).
Proof.
  intros Hin. apply Forall_forall. intros r (id & ch & rows & Hp & Hrows & Hr)%worker_loop_rows.
  rewrite Forall_forall in Hin. specialize (Hin _ Hp). simpl in Hin.
  destruct (process_chunk_rows _ _ _ _ _ Hrows Hr) as (-> & _). lia.
Qed.

(** C8. Each worker's first row is the warm-up row, tagged [-1], and none
    of the rows it adds afterwards carries that tag; the merge loop does
    exactly what it would do on the table with the rows tagged [-1] taken
    out, so they contribute nothing to any query's results. *)
Theorem sentinel_rows_never_contribute :
  (∀ self n w dl,
     ∃ sentinel rest,
       _encode_multi_process_worker self (inputs_of n w dl) = sentinel :: rest
       ∧ warmup = [sentinel]
       ∧ batch_index sentinel = -1
       ∧ Forall (λ r, batch_index r ≠ -1) rest)
  ∧ (∀ chunk_size corpus_ids query_ids n_queries rows world,
       merge chunk_size corpus_ids query_ids n_queries rows world
       = merge chunk_size corpus_ids query_ids n_queries (real_rows rows) world).
Proof.
  split.
  - intros self n w dl. eexists _, _. split; [reflexivity|].
    split; [done|]. split; [done|].
    apply worker_loop_real. unfold inputs_of.
    apply Forall_forall. intros [id ch] [_ Hin]%list_elem_of_filter.
    apply enumerate_elem in Hin as (b & -> & _). simpl. lia.
  - intros. unfold merge. munfold. simpl.
    apply forM_ext. intros qi w'.
    destruct (py_getitem query_ids qi); [|done].
    apply forM_real_rows.
Qed.

(** C7. With no chunk size configured, [search] derives
    [min(ceil(corpus_size / num_workers / 10), 5000)], clamps it to
    [corpus_size - 1], stores it, and runs the rest of the job with it: the
    query and corpus streams are cut into chunks of that size and the merge
    loop resolves positions with it. *)
Theorem search_derives_chunk_size self corpus queries top_k name :
  corpus_chunk_size self = None →
  target_devices self ≠ [] →
  known_score_function name →
  let chunk_size :=
    Z.min (Z.min (Qceiling (inject_Z (len corpus)
                            / inject_Z (len (target_devices self)) / 10)) 5000)
          (len corpus - 1) in
  let self' := set_corpus_chunk_size chunk_size self in
  let stream := prepare_corpus self corpus in
  let outcome := run (search corpus queries top_k name) self in
  outcome = search_job chunk_size corpus queries top_k name
              {| obj := self'; trace := [] |}
  ∧ corpus_chunk_size (obj outcome.1) = Some chunk_size
  ∧ (0 < chunk_size → queries ≠ [] →
     trace outcome.1
       = query_events (chunks (Z.to_nat chunk_size) queries)
         ++ dispatch_events self (chunks (Z.to_nat chunk_size) stream)
         ++ [Compute]
     ∧ outcome.2
       = merged chunk_size (c_id <$> stream) (q_id <$> queries) (len queries)
           (compute (job_self self' queries top_k name)
              (chunks (Z.to_nat chunk_size) stream))).
Proof.
  intros Hnone Hdev Hname chunk_size self' stream outcome.
  assert (outcome = search_job chunk_size corpus queries top_k name
                      {| obj := self'; trace := [] |}) as Hout.
  { unfold outcome. rewrite search_run, bool_decide_eq_true_2 by done.
    unfold requested_chunk_size, ceil_div10. rewrite Hnone.
    destruct (Z.eqb_spec (len (target_devices self)) 0) as [H0|_]; [|done].
    destruct (target_devices self); [done|]. unfold len in H0. simpl in H0. lia. }
  split; [done|]. split.
  - destruct outcome as [w r] eqn:Ho. symmetry in Hout.
    by apply search_job_chunk_size in Hout.
  - intros Hcs Hq.
    destruct (search_job_run chunk_size corpus queries top_k name
                {| obj := self'; trace := [] |}) as (res' & Heq & _); [done..|].
    rewrite Hout, Heq. done.
Qed.

(** C10. The clamped chunk size is written back to the object, whether the
    caller configured one or it was derived, and stays there when the call
    ends, normally or not; the next [search] on the object starts from that
    stored value and only clamps it against its own corpus. *)
Theorem search_chunk_size_persists self c
    corpus1 queries1 top_k1 name1 corpus2 queries2 top_k2 name2 :
  requested_chunk_size self (len corpus1) = Ok c →
  known_score_function name1 →
  known_score_function name2 →
  let first := run (search corpus1 queries1 top_k1 name1) self in
  let second := run (search corpus2 queries2 top_k2 name2) (obj first.1) in
  corpus_chunk_size (obj first.1) = Some (Z.min c (len corpus1 - 1))
  ∧ requested_chunk_size (obj first.1) (len corpus2) = Ok (Z.min c (len corpus1 - 1))
  ∧ corpus_chunk_size (obj second.1)
    = Some (Z.min (Z.min c (len corpus1 - 1)) (len corpus2 - 1)).
Proof.
  intros Hc Hn1 Hn2 first second.
  assert (∀ s c' corpus queries top_k name,
    requested_chunk_size s (len corpus) = Ok c' → known_score_function name →
    corpus_chunk_size (obj (run (search corpus queries top_k name) s).1)
    = Some (Z.min c' (len corpus - 1))) as Hstore.
  { intros s c' corpus queries top_k name Hreq Hname.
    rewrite search_run, bool_decide_eq_true_2, Hreq by done.
    destruct (search_job _ _ _ _ _ _) as [w r] eqn:Hjob.
    by apply search_job_chunk_size in Hjob. }
  assert (corpus_chunk_size (obj first.1) = Some (Z.min c (len corpus1 - 1))) as H1
    by by apply Hstore.
  assert (requested_chunk_size (obj first.1) (len corpus2)
          = Ok (Z.min c (len corpus1 - 1))) as H2
    by (unfold requested_chunk_size; by rewrite H1).
  repeat split; try done. by apply Hstore.
Qed.

(** C9, at a corpus of at most one document: the clamp of line 78 leaves a
    chunk size below one and the call ends in an exception, whatever else
    was configured. *)
Theorem search_tiny_corpus_raises self corpus queries top_k name :
  (length corpus ≤ 1)%nat →
  ∃ w e, run (search corpus queries top_k name) self = (w, Raise e).
Proof.
  intros Hlen. rewrite search_run. case_bool_decide; [|eauto].
  destruct (requested_chunk_size self (len corpus)) as [c|e]; [|eauto].
  rewrite search_job_small by (unfold len; lia). eauto.
Qed.

(** What the worker does on a chunk when the job has at least two queries:
    it adds [min(top_k + 1, n_chunk_items)] rows, each indexed by query, and
    the candidates they hold for a query are a top-k selection of that
    query's scores against the chunk, in no particular order. *)
Lemma worker_selects_top_k self name k0 id sentences :
  score_function self = Some name →
  known_score_function name →
  top_k self = Some k0 → -1 ≤ k0 →
  (2 ≤ length (query_embeddings self))%nat →
  ∃ rows f,
    process_chunk self id sentences = Ok rows
    ∧ score_functions !! name = Some f
    ∧ Z.of_nat (length rows) = Z.min (k0 + 1) (len sentences)
    ∧ (∀ r, r ∈ rows →
         batch_index r = id
         ∧ length (cos_scores_top_k_values r) = length (query_embeddings self)
         ∧ length (cos_scores_top_k_idx r) = length (query_embeddings self))
    ∧ ∀ qi q, query_embeddings self !! qi = Some q →
        ∃ sel_q,
          is_topk (chunk_scores f q sentences) (length rows) sel_q
          ∧ ∀ i v, (i, v) ∈ sel_q ↔ selected rows qi i v.
Proof.
  intros Hname Hknown Hk0 Hk Hq.
  destruct (process_chunk_total self name k0 id sentences) as [rows Hrows];
    [by auto using score_functions_known..|].
  destruct (process_chunk_selected _ _ _ _ Hrows)
    as (name' & f & k0' & Hname' & Hf & Hk0' & _ & Hlen & Hsel).
  assert (name' = name) as -> by congruence.
  assert (k0' = k0) as -> by congruence.
  exists rows, f. repeat split; try done;
    by destruct (process_chunk_rows _ _ _ _ _ Hrows H) as (? & ? & ? & _).
Qed.

(** C4, at a single query: [cos_scores[1]] does not exist, the worker
    raises on every chunk before it selects anything, and [search] comes
    back with an empty mapping for the query. *)
Theorem single_query_selects_nothing self corpus query k name w res :
  run (search corpus [query] k name) self = (w, Ok res) →
  (∀ id sentences, process_chunk (obj w) id sentences = Raise IndexError)
  ∧ res = {[ q_id query := ∅ ]}.
Proof.
  intros (Hname & c & _ & Hcs & _ & Hm & ->)%search_Ok.
  set (cs := Z.min c (len corpus - 1)) in *.
  set (self0 := set_corpus_chunk_size cs self) in *.
  assert (∀ s id sentences,
    score_function s = Some name → top_k s = Some k →
    query_embeddings s = [embed_query (q_text query)] →
    process_chunk s id sentences = Raise IndexError) as Hraise.
  { intros s id sentences Hn Hk Hqe.
    apply (process_chunk_one_query s name k);
      [done|by apply score_functions_known|done|by rewrite Hqe]. }
  split; [intros; by apply Hraise|].
  unfold job_merged in Hm.
  assert (∀ q m, res !! q = Some m → m = ∅) as Hempty.
  { intros q m Hq. apply map_empty. intros cid.
    destruct (m !! cid) as [s|] eqn:Hcid; [exfalso|done].
    destruct (merged_resolved _ _ _ _ _ _ Hm _ _ _ _ Hq Hcid)
      as (r & _ & _ & Hr & Hreal & _).
    unfold job_rows in Hr.
    apply compute_rows in Hr as [Hw|(b & ch & rows & _ & Hp & _)].
    - by apply warmup_sentinel in Hw.
    - by rewrite Hraise in Hp. }
  pose proof (merged_dom _ _ _ _ _ _ Hm) as Hdom.
  apply map_eq. intros q.
  destruct (decide (q = q_id query)) as [->|Hne].
  - rewrite lookup_singleton_eq.
    assert (q_id query ∈ dom res) as [m Hq]%elem_of_dom.
    { rewrite Hdom, elem_of_list_to_set. simpl. left. }
    by rewrite Hq, (Hempty _ _ Hq).
  - rewrite lookup_singleton_ne by done.
    apply not_elem_of_dom. rewrite Hdom, elem_of_list_to_set. simpl.
    by intros ->%list_elem_of_singleton.
Qed.

(** The worker and not-a-number scores.  They do not stop the worker and are
    turned into [-1] before the selection, so no row holds a not-a-number.
    The document of such a score is still selected for a query when the
    chunk has nothing better to offer: whenever it is, its value is [-1] and
    every document of the chunk scoring above [-1] for that query is
    selected too. *)
Lemma worker_replaces_nan self name k0 id sentences :
  score_function self = Some name →
  known_score_function name →
  top_k self = Some k0 → -1 ≤ k0 →
  (2 ≤ length (query_embeddings self))%nat →
  ∃ rows f,
    process_chunk self id sentences = Ok rows
    ∧ score_functions !! name = Some f
    ∧ (∀ r v, r ∈ rows → v ∈ cos_scores_top_k_values r → isnan v = false)
    ∧ ∀ qi q i d v,
        query_embeddings self !! qi = Some q →
        sentences !! i = Some d →
        isnan (f q (embed_doc d)) = true →
        selected rows qi i v →
        v = minus_one
        ∧ ∀ j d',
            sentences !! j = Some d' →
            fl_ltb minus_one (nan_to_minus_one (f q (embed_doc d'))) = true →
            ∃ v', selected rows qi j v'.
Proof.
  intros Hname Hknown Hk0 Hk Hq.
  destruct (worker_selects_top_k self name k0 id sentences)
    as (rows & f & Hrows & Hf & Hlen & Hshape & Hsel); [done..|].
  exists rows, f. split; [done|]. split; [done|]. split.
  - intros r v Hr [qi Hv]%list_elem_of_lookup.
    destruct (process_chunk_rows _ _ _ _ _ Hrows Hr) as (_ & Hvl & _ & Hdoc).
    destruct (Hdoc qi) as (? & f' & q & i & d & _ & _ & _ & _ & _ & Hval).
    { rewrite <- Hvl. by apply lookup_lt_Some in Hv. }
    rewrite Hv in Hval. injection Hval as ->. apply nan_to_minus_one_not_nan.
  - intros qi q i d v Hqi Hd Hnan Hiv.
    destruct (Hsel _ _ Hqi) as (sel_q & (_ & _ & Hmem & Hdom) & Hiff).
    apply Hiff in Hiv.
    assert (v = minus_one) as ->.
    { apply Hmem in Hiv. unfold chunk_scores in Hiv.
      rewrite list_lookup_fmap, Hd in Hiv. injection Hiv as <-.
      unfold nan_to_minus_one. by rewrite Hnan. }
    split; [done|]. intros j d' Hd' Hgt.
    destruct (decide (j ∈ sel_q.*1)) as [Hin|Hout].
    + apply list_elem_of_fmap in Hin as ([j' v'] & -> & Hin).
      exists v'. by apply Hiff.
    + exfalso.
      assert (chunk_scores f q sentences !! j
              = Some (nan_to_minus_one (f q (embed_doc d')))) as Hj.
      { unfold chunk_scores. by rewrite list_lookup_fmap, Hd'. }
      pose proof (Hdom _ _ _ _ Hiv Hj Hout) as Hle.
      unfold fl_ltb in Hgt. by rewrite Hle in Hgt.
Qed.

Lemma job_rows_readable self chunk_size corpus queries k name :
  0 < chunk_size →
  Forall (readable chunk_size (c_id <$> prepare_corpus self corpus) (len queries))
         (job_rows self chunk_size corpus queries k name).
Proof.
  intros Hcs. apply Forall_forall. intros r Hr Hreal qi Hqi.
  destruct (job_rows_real _ _ _ _ _ _ _ Hr Hreal)
    as (b & chunk & f & Hb & Hchunk & _ & _ & _ & Hslot).
  destruct (lookup_lt_is_Some_2 queries (Z.to_nat qi)) as [query Hquery].
  { unfold len in Hqi. lia. }
  destruct (Hslot _ _ Hquery) as (j & doc & Hj & Hidx & Hval).
  pose proof (global_position_chunk _ _ _ _ _ _ Hchunk Hj) as Hpos.
  rewrite Z2Nat.id in Hpos by lia.
  exists (Z.of_nat j), (nan_to_minus_one (f (embed_query (q_text query)) (embed_doc doc))),
    (c_id doc).
  rewrite !py_getitem_nonneg by (try unfold global_position; lia).
  rewrite Hb, list_lookup_fmap, Hpos. done.
Qed.

(** X1. Away from the inputs of C9 and C4 [search] does return: a corpus of at
    least two documents, at least one query and a requested chunk size of
    at least one are enough, whatever [top_k] is. *)
Lemma search_returns self corpus queries k name c :
  known_score_function name →
  requested_chunk_size self (len corpus) = Ok c →
  1 ≤ c → (2 ≤ length corpus)%nat → queries ≠ [] →
  ∃ w res,
    run (search corpus queries k name) self = (w, Ok res)
    ∧ dom res = list_to_set (q_id <$> queries).
Proof.
  intros Hname Hc Hc1 Hlen Hq.
  rewrite search_run, bool_decide_eq_true_2, Hc by done.
  set (cs := Z.min c (len corpus - 1)).
  assert (0 < cs) as Hcs by (unfold cs, len; lia).
  destruct (search_job_run cs corpus queries k name
              {| obj := set_corpus_chunk_size cs self; trace := [] |})
    as (res' & Heq & _); [done..|].
  rewrite Heq. unfold job_merged. simpl.
  destruct (merged_total cs
              (c_id <$> prepare_corpus (set_corpus_chunk_size cs self) corpus)
              (q_id <$> queries) (len queries)
              (job_rows (set_corpus_chunk_size cs self) cs corpus queries k name))
    as [res Hres].
  { unfold len. by rewrite length_fmap. }
  { by apply job_rows_readable. }
  rewrite Hres. eexists _, res. split; [done|]. by apply merged_dom in Hres.
Qed.

(** ** Further properties of [search]: what it leaves on the object, and
    how it can end *)

(** X2. When [search] returns, the mapping it returns is [self.results], and the
    object holds the job's parameters: [top_k], the score function's name,
    and one query embedding per query in the order of the queries, however
    the queries were cut into batches; devices, batch size and the sorting
    switch are untouched. *)
Theorem search_stores_job self corpus queries k name w res :
  run (search corpus queries k name) self = (w, Ok res) →
  results (obj w) = res
  ∧ top_k (obj w) = Some k
  ∧ score_function (obj w) = Some name
  ∧ query_embeddings (obj w) = embed_query <$> (q_text <$> queries)
  ∧ target_devices (obj w) = target_devices self
  ∧ batch_size (obj w) = batch_size self
  ∧ sort_corpus (obj w) = sort_corpus self.
Proof. intros (_ & c & _ & _ & _ & _ & ->)%search_Ok. done. Qed.

Definition batch_size_error : exn :=
  ValueError "batch_size should be a positive integer value".

(** X3. The four ways [search] fails, in the order the code meets them.  An
    unknown score function is rejected before anything else; a missing chunk
    size with no device divides by zero; a clamped chunk size below one is
    refused by the data loader after the field has been written; an empty
    query set makes [torch.cat] fail.  In all four no query was encoded and
    no pool started. *)
Theorem search_failures self corpus queries k name :
  (¬ known_score_function name →
     run (search corpus queries k name) self
     = ({| obj := self; trace := [] |}, Raise (score_function_error name)))
  ∧ (known_score_function name → corpus_chunk_size self = None →
     target_devices self = [] →
     run (search corpus queries k name) self
     = ({| obj := self; trace := [] |}, Raise ZeroDivisionError))
  ∧ (∀ c, known_score_function name →
     requested_chunk_size self (len corpus) = Ok c →
     Z.min c (len corpus - 1) ≤ 0 →
     run (search corpus queries k name) self
     = ({| obj := set_corpus_chunk_size (Z.min c (len corpus - 1)) self;
           trace := [] |}, Raise batch_size_error))
  ∧ (∀ c, known_score_function name →
     requested_chunk_size self (len corpus) = Ok c →
     0 < Z.min c (len corpus - 1) → queries = [] →
     run (search corpus queries k name) self
     = ({| obj := set_corpus_chunk_size (Z.min c (len corpus - 1)) self;
           trace := [] |}, Raise RuntimeError)).
Proof.
  rewrite search_run. repeat apply conj.
  - intros Hname. by rewrite bool_decide_eq_false_2.
  - intros Hname Hnone Hdev. rewrite bool_decide_eq_true_2 by done.
    unfold requested_chunk_size, ceil_div10. by rewrite Hnone, Hdev.
  - intros c Hname -> Hcs. rewrite bool_decide_eq_true_2 by done.
    by rewrite search_job_small.
  - intros c Hname -> Hcs ->. rewrite bool_decide_eq_true_2 by done.
    by rewrite search_job_no_queries.
Qed.

Lemma job_merged_total self chunk_size corpus queries k name :
  0 < chunk_size →
  ∃ res, job_merged self chunk_size corpus queries k name = Ok res.
Proof.
  intros Hcs. unfold job_merged. apply merged_total.
  - unfold len. by rewrite length_fmap.
  - by apply job_rows_readable.
Qed.

(** X4. Those are the only exceptions: whatever the inputs, [search] never
    ends in an [IndexError], a [KeyError] or a [TypeError].  The merge loop
    never reads out of bounds on the rows the workers wrote, and a worker's
    own failure stays in the worker. *)
Theorem search_never_index_error self corpus queries k name w e :
  run (search corpus queries k name) self = (w, Raise e) →
  e = score_function_error name ∨ e = ZeroDivisionError
  ∨ e = batch_size_error ∨ e = RuntimeError.
Proof.
  rewrite search_run. case_bool_decide as Hname.
  2:{ intros [= _ <-]. auto. }
  destruct (requested_chunk_size self (len corpus)) as [c|e'] eqn:Hc.
  - destruct (Z.leb_spec (Z.min c (len corpus - 1)) 0) as [Hle|Hlt].
    { rewrite search_job_small by done. intros [= _ <-]. auto. }
    destruct queries as [|query queries].
    { rewrite search_job_no_queries by done. intros [= _ <-]. auto. }
    set (cs := Z.min c (len corpus - 1)) in *.
    destruct (search_job_run cs corpus (query :: queries) k name
                {| obj := set_corpus_chunk_size cs self; trace := [] |})
      as (res' & -> & _); [done..|].
    destruct (job_merged_total (set_corpus_chunk_size cs self) cs corpus
                (query :: queries) k name Hlt) as [res Hres].
    simpl. by rewrite Hres.
  - intros [= _ <-].
    unfold requested_chunk_size, ceil_div10 in Hc.
    destruct (corpus_chunk_size self); [done|].
    destruct (_ =? 0); [|done]. injection Hc as <-. auto.
Qed.

(** ** The entries of the result, described without the schedule *)

(** A worker either gets through every chunk of a job or through none:
    the exceptions of [process_chunk] do not depend on the chunk. *)
Lemma process_chunk_uniform self id sentences rows id' sentences' :
  process_chunk self id sentences = Ok rows →
  ∃ rows', process_chunk self id' sentences' = Ok rows'.
Proof.
  intros (name & f & k0 & sel & Hname & Hf & Hk0 & Hq & Hk & _)%process_chunk_Ok.
  apply (process_chunk_total self name k0); [done|by eauto|done| |done].
  unfold len in Hk. lia.
Qed.

Lemma worker_loop_complete self inputs id ch rows r :
  (∀ id' ch', ∃ rows', process_chunk self id' ch' = Ok rows') →
  (id, ch) ∈ inputs → process_chunk self id ch = Ok rows → r ∈ rows →
  r ∈ worker_loop self inputs.
Proof.
  intros Hall Hin Hp Hr.
  induction inputs as [|[id' ch'] inputs IH]; [by apply elem_of_nil in Hin|].
  simpl. destruct (Hall id' ch') as [rows' Hp']. rewrite Hp'.
  apply elem_of_app. apply elem_of_cons in Hin as [[= <- <-]|Hin].
  - left. congruence.
  - right. by apply IH.
Qed.

(** With at least one worker, the rows of every chunk reach the table. *)
Lemma compute_complete self dl (b : nat) ch rows r :
  target_devices self ≠ [] →
  dl !! b = Some ch → process_chunk self (Z.of_nat b) ch = Ok rows → r ∈ rows →
  r ∈ compute self dl.
Proof.
  intros Hdev Hb Hp Hr. unfold compute.
  set (n := length (target_devices self)).
  assert (0 < n)%nat as Hn by (unfold n; destruct (target_devices self); [done|simpl; lia]).
  apply list_elem_of_join.
  exists (_encode_multi_process_worker self (inputs_of n (sched b `mod` n) dl)).
  split.
  - unfold _encode_multi_process_worker. apply elem_of_app. right.
    apply (worker_loop_complete _ _ (Z.of_nat b) ch rows); [|  |done..].
    + intros id' ch'. by eapply process_chunk_uniform.
    + unfold inputs_of. apply list_elem_of_filter. split.
      * simpl. by rewrite Nat2Z.id.
      * apply enumerate_elem. eauto.
  - apply list_elem_of_fmap. exists (sched b `mod` n)%nat. split; [done|].
    apply elem_of_seq. split; [lia|]. simpl. by apply Nat.mod_upper_bound, Nat.neq_0_lt_0.
Qed.

(** An entry the job is expected to produce: the score of a query against a
    document that one of the rows of the document's chunk points at, the
    query itself apart. *)
Definition expected_entry (self : Self) (chunk_size : Z) (corpus : list CorpusItem)
    (queries : list QueryItem) (k : Z) (name : string)
    (q c : string) (s : fl) : Prop :=
  ∃ (qi b j : nat) query chunk rows r doc f,
    queries !! qi = Some query ∧ q_id query = q
    ∧ chunks (Z.to_nat chunk_size) (prepare_corpus self corpus) !! b = Some chunk
    ∧ process_chunk (job_self self queries k name) (Z.of_nat b) chunk = Ok rows
    ∧ r ∈ rows
    ∧ cos_scores_top_k_idx r !! qi = Some (Z.of_nat j)
    ∧ chunk !! j = Some doc ∧ c_id doc = c ∧ c ≠ q
    ∧ score_functions !! name = Some f
    ∧ s = nan_to_minus_one (f (embed_query (q_text query)) (embed_doc doc)).

Lemma job_rows_origin self chunk_size corpus queries k name r :
  r ∈ job_rows self chunk_size corpus queries k name → batch_index r ≠ -1 →
  ∃ (b : nat) chunk rows,
    batch_index r = Z.of_nat b
    ∧ chunks (Z.to_nat chunk_size) (prepare_corpus self corpus) !! b = Some chunk
    ∧ process_chunk (job_self self queries k name) (Z.of_nat b) chunk = Ok rows
    ∧ r ∈ rows.
Proof.
  unfold job_rows. intros [Hw|(b & chunk & rows & Hb & Hp & Hr)]%compute_rows Hreal.
  { by apply warmup_sentinel in Hw. }
  destruct (process_chunk_rows _ _ _ _ _ Hp Hr) as (Hid & _). eauto 8.
Qed.

Lemma job_entry_expected self chunk_size corpus queries k name res q m c s :
  0 < chunk_size →
  job_merged self chunk_size corpus queries k name = Ok res →
  res !! q = Some m → m !! c = Some s →
  expected_entry self chunk_size corpus queries k name q c s.
Proof.
  intros Hcs Hm Hq Hc. unfold job_merged in Hm.
  destruct (merged_resolved _ _ _ _ _ _ Hm _ _ _ _ Hq Hc)
    as (r & qi & i & Hr & Hreal & Hqi & Hqid & Hi & Hs & Hcid & Hne).
  destruct (job_rows_origin _ _ _ _ _ _ _ Hr Hreal) as (b & chunk & rows & Hb & Hchunk & Hp & Hrows).
  destruct (job_rows_real _ _ _ _ _ _ _ Hr Hreal)
    as (b' & chunk' & f & Hb' & Hchunk' & Hf & _ & _ & Hslot).
  assert (b' = b) as -> by lia. assert (chunk' = chunk) as -> by congruence.
  apply py_getitem_nonneg in Hqid; [|done].
  rewrite list_lookup_fmap in Hqid.
  destruct (queries !! Z.to_nat qi) as [query|] eqn:Hquery; [|done].
  injection Hqid as Hqid.
  destruct (Hslot _ _ Hquery) as (j & doc & Hj & Hidx & Hval).
  apply py_getitem_nonneg in Hi; [|done]. apply py_getitem_nonneg in Hs; [|done].
  assert (i = Z.of_nat j) as -> by congruence.
  pose proof (global_position_chunk _ _ _ _ _ _ Hchunk Hj) as Hpos.
  rewrite Z2Nat.id in Hpos by lia. rewrite Hb in Hcid.
  apply py_getitem_nonneg in Hcid; [|unfold global_position; lia].
  rewrite list_lookup_fmap, Hpos in Hcid. injection Hcid as Hcid.
  exists (Z.to_nat qi), b, j, query, chunk, rows, r, doc, f.
  repeat split; try done. congruence.
Qed.

Lemma expected_entry_kept self chunk_size corpus queries k name res q c s :
  0 < chunk_size → target_devices self ≠ [] →
  job_merged self chunk_size corpus queries k name = Ok res →
  expected_entry self chunk_size corpus queries k name q c s →
  kept res q c.
Proof.
  intros Hcs Hdev Hm
    (qi & b & j & query & chunk & rows & r & doc & f & Hquery & Hq & Hchunk & Hp
     & Hr & Hidx & Hj & Hc & Hne & _).
  unfold job_merged, merged in Hm.
  assert (r ∈ job_rows self chunk_size corpus queries k name) as Hrow.
  { unfold job_rows. by apply (compute_complete _ _ b chunk rows). }
  destruct (process_chunk_rows _ _ _ _ _ Hp Hr) as (Hid & _).
  pose proof (global_position_chunk _ _ _ _ _ _ Hchunk Hj) as Hpos.
  rewrite Z2Nat.id in Hpos by lia.
  apply (merge_queries_kept _ _ _ _ _ _ _ (Z.of_nat qi) q r (Z.of_nat j) c Hm).
  - unfold range. apply list_elem_of_fmap. exists qi. split; [done|].
    apply elem_of_seq. apply lookup_lt_Some in Hquery. unfold len. lia.
  - apply py_getitem_nonneg; [lia|].
    by rewrite Nat2Z.id, list_lookup_fmap, Hquery, <- Hq.
  - done.
  - lia.
  - apply py_getitem_nonneg; [lia|]. by rewrite Nat2Z.id.
  - rewrite Hid. apply py_getitem_nonneg; [unfold global_position; lia|].
    by rewrite list_lookup_fmap, Hpos, <- Hc.
  - done.
Qed.

Lemma expected_entry_unique self chunk_size corpus queries k name q c s s' :
  NoDup (c_id <$> corpus) → NoDup (q_id <$> queries) →
  expected_entry self chunk_size corpus queries k name q c s →
  expected_entry self chunk_size corpus queries k name q c s' →
  s = s'.
Proof.
  intros Hcids Hqids
    (qi & b & j & query & chunk & rows & r & doc & f & Hquery & Hq & Hchunk & _
     & _ & _ & Hj & Hc & _ & Hf & ->)
    (qi' & b' & j' & query' & chunk' & rows' & r' & doc' & f' & Hquery' & Hq' & Hchunk' & _
     & _ & _ & Hj' & Hc' & _ & Hf' & ->).
  assert (f' = f) as -> by congruence.
  assert (query' = query) as ->.
  { assert (qi = qi') as ->; [|congruence].
    apply (NoDup_lookup (q_id <$> queries) qi qi' q Hqids);
      rewrite list_lookup_fmap; [by rewrite Hquery, <- Hq|by rewrite Hquery', <- Hq']. }
  assert (doc' = doc) as ->; [|done].
  set (stream := prepare_corpus self corpus) in *.
  assert (NoDup (c_id <$> stream)) as Hnd.
  { unfold stream. by rewrite prepare_corpus_perm. }
  destruct (chunks_item _ _ _ _ _ _ Hchunk Hj) as [Hpos _].
  destruct (chunks_item _ _ _ _ _ _ Hchunk' Hj') as [Hpos' _].
  assert (j + b * Z.to_nat chunk_size = j' + b' * Z.to_nat chunk_size)%nat as Heq.
  { apply (NoDup_lookup (c_id <$> stream) _ _ c Hnd);
      rewrite list_lookup_fmap; [by rewrite Hpos, <- Hc|by rewrite Hpos', <- Hc']. }
  rewrite Heq in Hpos. congruence.
Qed.

(** The result of a job, entry by entry: with distinct corpus ids, distinct
    query ids and at least one worker, a query's mapping holds exactly the
    expected entries. *)
Lemma job_entries self chunk_size corpus queries k name res q c s :
  0 < chunk_size → target_devices self ≠ [] →
  NoDup (c_id <$> corpus) → NoDup (q_id <$> queries) →
  job_merged self chunk_size corpus queries k name = Ok res →
  (res !! q ≫= λ m : gmap string fl, m !! c) = Some s
  ↔ expected_entry self chunk_size corpus queries k name q c s.
Proof.
  intros Hcs Hdev Hcids Hqids Hm. split.
  - destruct (res !! q) as [m|] eqn:Hq; [|done]. simpl. intros Hc.
    by eapply job_entry_expected.
  - intros Hexp.
    destruct (expected_entry_kept _ _ _ _ _ _ _ _ _ _ Hcs Hdev Hm Hexp)
      as (m & Hq & [s' Hc]).
    rewrite Hq. simpl. rewrite Hc. f_equal.
    eapply expected_entry_unique; [done|done| |exact Hexp].
    by eapply job_entry_expected.
Qed.

Lemma search_dom self corpus queries k name w res :
  run (search corpus queries k name) self = (w, Ok res) →
  dom res = list_to_set (q_id <$> queries).
Proof.
  intros (_ & c & _ & _ & _ & Hm & _)%search_Ok.
  unfold job_merged in Hm. by apply merged_dom in Hm.
Qed.

(** What the workers return reads three fields of the object only. *)
Lemma process_chunk_ext s1 s2 id sentences :
  score_function s1 = score_function s2 → top_k s1 = top_k s2 →
  query_embeddings s1 = query_embeddings s2 →
  process_chunk s1 id sentences = process_chunk s2 id sentences.
Proof. unfold process_chunk. by intros -> -> ->. Qed.

Lemma worker_loop_ext s1 s2 inputs :
  score_function s1 = score_function s2 → top_k s1 = top_k s2 →
  query_embeddings s1 = query_embeddings s2 →
  worker_loop s1 inputs = worker_loop s2 inputs.
Proof.
  intros H1 H2 H3. induction inputs as [|[id ch] inputs IH]; [done|].
  simpl. rewrite (process_chunk_ext s1 s2) by done. by rewrite IH.
Qed.

Lemma compute_ext s1 s2 dl :
  target_devices s1 = target_devices s2 →
  score_function s1 = score_function s2 → top_k s1 = top_k s2 →
  query_embeddings s1 = query_embeddings s2 →
  compute s1 dl = compute s2 dl.
Proof.
  intros Hd H1 H2 H3. unfold compute, _encode_multi_process_worker. rewrite Hd.
  f_equal. apply list_fmap_ext. intros _ w _.
  by rewrite (worker_loop_ext s1 s2).
Qed.

Lemma job_merged_ext s1 s2 chunk_size corpus queries k name :
  target_devices s1 = target_devices s2 → sort_corpus s1 = sort_corpus s2 →
  job_merged s1 chunk_size corpus queries k name
  = job_merged s2 chunk_size corpus queries k name.
Proof.
  intros Hd Hs. unfold job_merged, job_rows, prepare_corpus. rewrite Hs.
  by rewrite (compute_ext (job_self s1 queries k name) (job_self s2 queries k name)).
Qed.

Lemma search_entries self corpus queries k name w res :
  target_devices self ≠ [] →
  NoDup (c_id <$> corpus) → NoDup (q_id <$> queries) →
  run (search corpus queries k name) self = (w, Ok res) →
  ∃ c, requested_chunk_size self (len corpus) = Ok c
     ∧ 0 < Z.min c (len corpus - 1)
     ∧ ∀ q cid s,
         (res !! q ≫= λ m : gmap string fl, m !! cid) = Some s
         ↔ expected_entry self (Z.min c (len corpus - 1)) corpus queries k name q cid s.
Proof.
  intros Hdev Hcids Hqids (_ & c & Hc & Hcs & _ & Hm & _)%search_Ok.
  exists c. split; [done|]. split; [done|]. intros q cid s.
  rewrite (job_merged_ext _ self) in Hm by done.
  by rewrite (job_entries _ _ _ _ _ _ _ q cid s Hcs Hdev Hcids Hqids Hm).
Qed.

Lemma expected_entry_ext s1 s2 chunk_size corpus queries k name q c s :
  sort_corpus s1 = sort_corpus s2 →
  expected_entry s1 chunk_size corpus queries k name q c s →
  expected_entry s2 chunk_size corpus queries k name q c s.
Proof.
  intros Hs (qi & b & j & query & chunk & rows & r & doc & f & Hquery & Hq & Hchunk
             & Hp & Hrest).
  exists qi, b, j, query, chunk, rows, r, doc, f.
  split; [done|]. split; [done|]. split.
  { unfold prepare_corpus in *. by rewrite <- Hs. }
  split; [|done].
  by rewrite <- (process_chunk_ext (job_self s1 queries k name)).
Qed.

(** ** Further properties: what the results keep *)

Lemma is_topk_all row sel :
  is_topk row (length row) sel → ∀ i v, row !! i = Some v → (i, v) ∈ sel.
Proof.
  intros (Hlen & Hnd & Hmem & _) i v Hi.
  assert (∀ j, j ∈ sel.*1 → j ∈ seq 0 (length row)) as Hsub.
  { intros j ([j' u] & -> & Hin)%list_elem_of_fmap. simpl.
    apply Hmem, lookup_lt_Some in Hin. apply elem_of_seq. lia. }
  destruct (decide (i ∈ sel.*1)) as [Hin|Hout].
  - apply list_elem_of_fmap in Hin as ([i' u] & -> & Hin).
    simpl in Hi. rewrite (Hmem _ _ Hin) in Hi. by injection Hi as <-.
  - exfalso.
    assert (i :: sel.*1 ⊆+ seq 0 (length row)) as Hle.
    { apply NoDup_submseteq; [by constructor|].
      intros j [->|Hj]%elem_of_cons; [|by apply Hsub].
      apply elem_of_seq. apply lookup_lt_Some in Hi. lia. }
    apply submseteq_length in Hle. simpl in Hle.
    rewrite length_fmap, length_seq in Hle. lia.
Qed.

(** Whatever a chunk's worker selected for a query is kept by the merge,
    the query itself apart. *)
Lemma job_keeps_selection self chunk_size corpus queries k name res
    (qi b : nat) query chunk :
  0 < chunk_size → target_devices self ≠ [] →
  known_score_function name → -1 ≤ k → (2 ≤ length queries)%nat →
  job_merged self chunk_size corpus queries k name = Ok res →
  queries !! qi = Some query →
  chunks (Z.to_nat chunk_size) (prepare_corpus self corpus) !! b = Some chunk →
  ∃ f sel,
    score_functions !! name = Some f
    ∧ is_topk (chunk_scores f (embed_query (q_text query)) chunk)
        (Z.to_nat (Z.min (k + 1) (len chunk))) sel
    ∧ ∀ j v, (j, v) ∈ sel →
        ∃ doc, chunk !! j = Some doc
             ∧ (c_id doc = q_id query ∨ kept res (q_id query) (c_id doc)).
Proof.
  intros Hcs Hdev Hname Hk Hq Hm Hquery Hchunk.
  destruct (worker_selects_top_k (job_self self queries k name) name k
              (Z.of_nat b) chunk) as (rows & f & Hrows & Hf & Hlen & _ & Hsel);
    [done|done|done|done|by simpl; rewrite !length_fmap|].
  destruct (Hsel qi (embed_query (q_text query))) as (sel & Htop & Hiff).
  { simpl. by rewrite !list_lookup_fmap, Hquery. }
  exists f, sel. split; [done|]. split.
  { replace (Z.to_nat (Z.min (k + 1) (len chunk))) with (length rows) by lia. done. }
  intros j v Hin.
  pose proof Htop as (_ & _ & Hmem & _).
  pose proof (Hmem _ _ Hin) as Hj. unfold chunk_scores in Hj.
  rewrite list_lookup_fmap in Hj.
  destruct (chunk !! j) as [doc|] eqn:Hdoc; [|done].
  exists doc. split; [done|].
  destruct (decide (c_id doc = q_id query)) as [|Hne]; [by left|right].
  apply Hiff in Hin as (r & Hr & Hidx & _).
  apply (expected_entry_kept self chunk_size corpus queries k name res _ _
           (nan_to_minus_one (f (embed_query (q_text query)) (embed_doc doc))));
    [done..|].
  exists qi, b, j, query, chunk, rows, r, doc, f. done.
Qed.

(** X6. Every chunk's local selection survives into the results.  For a job of
    at least two queries, a [top_k] of at least [-1] and at least one
    worker, each query keeps, for each chunk, a top
    [min(top_k + 1, n_chunk_items)] selection of that chunk's scores (the
    query's own id apart): a document of the chunk that is left out scores no
    higher than any of them. *)
Theorem search_keeps_local_top_k self corpus queries k name w res :
  target_devices self ≠ [] → -1 ≤ k → (2 ≤ length queries)%nat →
  run (search corpus queries k name) self = (w, Ok res) →
  ∃ chunk_size f,
    corpus_chunk_size (obj w) = Some chunk_size
    ∧ score_functions !! name = Some f
    ∧ ∀ (qi b : nat) query chunk,
        queries !! qi = Some query →
        chunks (Z.to_nat chunk_size) (prepare_corpus self corpus) !! b = Some chunk →
        ∃ sel,
          is_topk (chunk_scores f (embed_query (q_text query)) chunk)
            (Z.to_nat (Z.min (k + 1) (len chunk))) sel
          ∧ ∀ j v, (j, v) ∈ sel →
              ∃ doc, chunk !! j = Some doc
                   ∧ (c_id doc = q_id query ∨ kept res (q_id query) (c_id doc)).
Proof.
  intros Hdev Hk Hq (Hname & c & _ & Hcs & _ & Hm & ->)%search_Ok.
  rewrite (job_merged_ext _ self) in Hm by done.
  destruct (score_functions_known name Hname) as [f Hf].
  exists (Z.min c (len corpus - 1)), f. split; [done|]. split; [done|].
  intros qi b query chunk Hquery Hchunk.
  destruct (job_keeps_selection _ _ _ _ _ _ _ qi b query chunk
              Hcs Hdev Hname Hk Hq Hm Hquery Hchunk) as (f' & sel & Hf' & Htop & Hkept).
  assert (f' = f) as -> by congruence. eauto.
Qed.

(** X7. When [top_k + 1] is at least the chunk size the ranking is exhaustive:
    every query's mapping has every corpus id other than the query's own. *)
Theorem search_keeps_whole_small_chunks self corpus queries k name w res chunk_size :
  target_devices self ≠ [] → (2 ≤ length queries)%nat →
  run (search corpus queries k name) self = (w, Ok res) →
  corpus_chunk_size (obj w) = Some chunk_size → chunk_size ≤ k + 1 →
  ∀ query doc, query ∈ queries → doc ∈ corpus → c_id doc ≠ q_id query →
    kept res (q_id query) (c_id doc).
Proof.
  intros Hdev Hq (Hname & c & _ & Hcs & _ & Hm & ->)%search_Ok [= <-] Hsmall
    query doc [qi Hquery]%list_elem_of_lookup Hdoc Hne.
  rewrite (job_merged_ext _ self) in Hm by done.
  set (cs := Z.min c (len corpus - 1)) in *.
  assert (doc ∈ prepare_corpus self corpus) as [p Hp]%list_elem_of_lookup
    by by rewrite prepare_corpus_perm.
  set (n := Z.to_nat cs).
  assert (0 < n)%nat as Hn by lia.
  assert (chunks n (prepare_corpus self corpus) !! (p `div` n)%nat
          = Some (take n (drop (p `div` n * n) (prepare_corpus self corpus)))) as Hchunk.
  { unfold chunks. rewrite list_lookup_fmap.
    rewrite (lookup_seq_lt 0 _ (p `div` n)); [done|].
    apply lookup_lt_Some in Hp.
    apply Nat.Div0.div_lt_upper_bound.
    pose proof (Nat.div_mod (length (prepare_corpus self corpus) + n - 1) n ltac:(lia)).
    pose proof (Nat.mod_upper_bound (length (prepare_corpus self corpus) + n - 1) n ltac:(lia)).
    nia. }
  set (chunk := take n _) in *.
  assert (chunk !! (p `mod` n)%nat = Some doc) as Hlocal.
  { unfold chunk. rewrite lookup_take_lt by (apply Nat.mod_upper_bound; lia).
    rewrite lookup_drop. rewrite <- Hp. f_equal.
    pose proof (Nat.div_mod p n ltac:(lia)). lia. }
  destruct (job_keeps_selection self cs corpus queries k name res qi
              (p `div` n)%nat query chunk) as (f & sel & Hf & Htop & Hkept);
    [done|done|done|lia|done..|].
  assert (length chunk ≤ n)%nat as Hlen by (unfold chunk; rewrite length_take; lia).
  replace (Z.to_nat (Z.min (k + 1) (len chunk)))
    with (length (chunk_scores f (embed_query (q_text query)) chunk)) in Htop
    by (unfold chunk_scores, len; rewrite length_fmap; lia).
  pose proof (is_topk_all _ _ Htop (p `mod` n)%nat
    (nan_to_minus_one (f (embed_query (q_text query)) (embed_doc doc)))) as Hin.
  destruct (Hkept _ _ (Hin ltac:(unfold chunk_scores; by rewrite list_lookup_fmap, Hlocal)))
    as (doc' & Hdoc' & [Hself|Hk]).
  - congruence.
  - congruence.
Qed.

(** X8. Every entry of the results is well formed: the outer key is the id of a
    query, the inner key the id of a corpus document other than that query,
    and the score is a number, never not-a-number. *)
Theorem search_entries_wellformed self corpus queries k name w res q m c s :
  run (search corpus queries k name) self = (w, Ok res) →
  res !! q = Some m → m !! c = Some s →
  q ∈ q_id <$> queries ∧ c ∈ c_id <$> corpus ∧ c ≠ q ∧ isnan s = false.
Proof.
  intros (_ & c0 & _ & Hcs & _ & Hm & _)%search_Ok Hq Hc.
  destruct (job_entry_expected _ _ _ _ _ _ _ _ _ _ _ Hcs Hm Hq Hc)
    as (qi & b & j & query & chunk & rows & r & doc & f & Hquery & <- & Hchunk & _
        & _ & _ & Hj & <- & Hne & _ & ->).
  split; [|split; [|split]].
  - apply list_elem_of_fmap. exists query. split; [done|]. by eapply list_elem_of_lookup_2.
  - apply list_elem_of_fmap. exists doc. split; [done|].
    destruct (chunks_item _ _ _ _ _ _ Hchunk Hj) as [Hpos _].
    apply list_elem_of_lookup_2 in Hpos.
    by rewrite prepare_corpus_perm in Hpos.
  - done.
  - apply nan_to_minus_one_not_nan.
Qed.


(** X10. The clamp of line 78 keeps the chunk size below the corpus size, so a
    job that returns has always cut its corpus into at least two chunks. *)
Theorem search_at_least_two_chunks self corpus queries k name w res :
  run (search corpus queries k name) self = (w, Ok res) →
  ∃ chunk_size,
    corpus_chunk_size (obj w) = Some chunk_size
    ∧ 1 ≤ chunk_size ≤ len corpus - 1
    ∧ (2 ≤ length (chunks (Z.to_nat chunk_size) (prepare_corpus self corpus)))%nat.
Proof.
  intros (_ & c & _ & Hcs & _ & _ & ->)%search_Ok.
  exists (Z.min c (len corpus - 1)). split; [done|]. split; [lia|].
  rewrite chunks_length, prepare_corpus_length.
  set (n := Z.to_nat (Z.min c (len corpus - 1))).
  assert (0 < n ∧ n + 1 ≤ length corpus)%nat as [Hn Hlen] by (unfold n, len in *; lia).
  apply Nat.div_le_lower_bound; lia.
Qed.

(** X11. With a negative [top_k] no candidate is ever kept: [top_k = -1] selects
    nothing and anything below makes every worker fail, so each query comes
    back with an empty mapping and no exception. *)
Theorem search_negative_top_k self corpus queries k name w res q m :
  k ≤ -1 →
  run (search corpus queries k name) self = (w, Ok res) →
  res !! q = Some m → m = ∅.
Proof.
  intros Hk (_ & c & _ & Hcs & _ & Hm & _)%search_Ok Hq.
  apply map_empty. intros cid.
  destruct (m !! cid) as [s|] eqn:Hcid; [exfalso|done].
  destruct (job_entry_expected _ _ _ _ _ _ _ _ _ _ _ Hcs Hm Hq Hcid)
    as (qi & b & j & query & chunk & rows & r & doc & f & _ & _ & _ & Hp & Hr & _).
  assert (length rows = Z.to_nat (Z.min (k + 1) (len chunk))) as Hlen
    by (eapply process_chunk_length; [|exact Hp]; done).
  apply list_elem_of_lookup in Hr as [i Hr]. apply lookup_lt_Some in Hr. lia.
Qed.

(** ** Further properties: the worker, the stream and the order of calls *)

Lemma process_chunk_below_minus_one self name k0 id sentences :
  score_function self = Some name →
  is_Some (score_functions !! name) →
  top_k self = Some k0 → k0 < -1 →
  (2 ≤ length (query_embeddings self))%nat →
  process_chunk self id sentences = Raise RuntimeError.
Proof.
  intros Hname [f Hf] Hk0 Hk Hq. unfold process_chunk. munfold.
  rewrite Hname. simpl. rewrite Hf. simpl. rewrite Hk0. simpl.
  set (m := replace_nan _).
  destruct (lookup_lt_is_Some_2 m 1) as [row1 Hrow1].
  { unfold m. rewrite score_matrix_length. lia. }
  assert (py_getitem m 1 = Ok row1) as -> by by apply py_getitem_nonneg.
  unfold topk. destruct m as [|row0 m']; [done|]. simpl.
  unfold topk_row at 1.
  destruct (Z.ltb_spec (Z.min (k0 + 1) (len row1)) 0) as [_|Hge]; [done|].
  unfold len in Hge. lia.
Qed.

(** X5. How one pass of the worker's loop ends once the job is set up.  With a
    single query (or none) it raises [IndexError] at [cos_scores[1]]; with a
    [top_k] below [-1] [torch.topk] refuses the negative [k]; otherwise it
    adds [min(top_k + 1, n_chunk_items)] rows tagged with the chunk's index,
    each holding one value and one local index per query, and for every
    query the rows' candidates are a top-k selection of the query's scores
    against the chunk. *)
Theorem process_chunk_outcome self name k0 id sentences :
  score_function self = Some name →
  known_score_function name →
  top_k self = Some k0 →
  ((length (query_embeddings self) ≤ 1)%nat →
     process_chunk self id sentences = Raise IndexError)
  ∧ ((2 ≤ length (query_embeddings self))%nat → k0 < -1 →
     process_chunk self id sentences = Raise RuntimeError)
  ∧ ((2 ≤ length (query_embeddings self))%nat → -1 ≤ k0 →
     ∃ rows f,
       process_chunk self id sentences = Ok rows
       ∧ score_functions !! name = Some f
       ∧ Z.of_nat (length rows) = Z.min (k0 + 1) (len sentences)
       ∧ Forall (λ r, batch_index r = id
                    ∧ length (cos_scores_top_k_values r)
                      = length (query_embeddings self)
                    ∧ length (cos_scores_top_k_idx r)
                      = length (query_embeddings self)) rows
       ∧ ∀ qi q, query_embeddings self !! qi = Some q →
           ∃ sel_q,
             is_topk (chunk_scores f q sentences) (length rows) sel_q
             ∧ ∀ i v, (i, v) ∈ sel_q ↔ selected rows qi i v).
Proof.
  intros Hname Hknown Hk0.
  pose proof (score_functions_known name Hknown) as Hf.
  split; [|split].
  - intros Hq. by apply (process_chunk_one_query self name k0).
  - intros Hq Hk. by apply (process_chunk_below_minus_one self name k0).
  - intros Hq Hk.
    destruct (worker_selects_top_k self name k0 id sentences)
      as (rows & f & Hrows & Hf' & Hlen & Hshape & Hsel); [done..|].
    exists rows, f. split; [done|]. split; [done|]. split; [done|].
    split; [|done]. apply Forall_forall. intros r Hr. by apply Hshape.
Qed.

Global Instance longer_first_trans : Transitive longer_first.
Proof. intros x y z. unfold longer_first. lia. Qed.

Global Instance longer_first_total : Total longer_first.
Proof. intros x y. unfold longer_first. lia. Qed.

(** X12. Longest first: with sorting on, the stream is a rearrangement of the
    corpus in which no document is longer than one before it, so every
    document of a chunk is at least as long as every document of a later
    chunk. *)
Theorem chunks_longest_first self corpus (n b b' : nat) chunk chunk' doc doc' :
  sort_corpus self = true →
  chunks n (prepare_corpus self corpus) !! b = Some chunk →
  chunks n (prepare_corpus self corpus) !! b' = Some chunk' →
  (b < b')%nat → doc ∈ chunk → doc' ∈ chunk' →
  prepare_corpus self corpus ≡ₚ corpus ∧ (doc_len doc' ≤ doc_len doc)%nat.
Proof.
  intros Hsort Hb Hb' Hlt [j Hj]%list_elem_of_lookup [j' Hj']%list_elem_of_lookup.
  split; [apply prepare_corpus_perm|].
  destruct (chunks_item _ _ _ _ _ _ Hb Hj) as [Hp Hjn].
  destruct (chunks_item _ _ _ _ _ _ Hb' Hj') as [Hp' _].
  set (stream := prepare_corpus self corpus) in Hp, Hp' |- *.
  assert (StronglySorted longer_first stream) as Hsorted.
  { unfold stream, prepare_corpus, sort_by_len. rewrite Hsort.
    apply StronglySorted_merge_sort; apply _. }
  assert (j + b * n < j' + b' * n)%nat as Hpos by nia.
  rewrite <- (take_drop (j' + b' * n) stream) in Hsorted.
  apply (StronglySorted_app_1_elem_of _ _ _ doc doc' Hsorted).
  - apply elem_of_take. eauto.
  - apply list_elem_of_lookup. exists 0%nat. rewrite lookup_drop.
    by rewrite Nat.add_0_r.
Qed.

Lemma enumerate_events {A} (dl : list A) :
  (λ p : Z * A, EncodeCorpus p.1) <$> enumerate dl = EncodeCorpus <$> range (len dl).
Proof.
  unfold enumerate, range, len. rewrite Nat2Z.id.
  apply list_eq. intros i.
  rewrite !list_lookup_fmap, list_lookup_imap.
  destruct (dl !! i) as [x|] eqn:Hx; simpl.
  - apply lookup_lt_Some in Hx. by rewrite lookup_seq_lt.
  - apply lookup_ge_None in Hx. by rewrite lookup_seq_ge.
Qed.

(** X13. The order of the calls of a job that returns: the queries are encoded
    batch by batch, in order; only then the pool is started; the chunks are
    put on the queue with the indices 0, 1, 2, ... in stream order, each
    once; the pool is stopped before the table is read. *)
Theorem search_call_order self corpus queries k name w res :
  run (search corpus queries k name) self = (w, Ok res) →
  ∃ chunk_size,
    corpus_chunk_size (obj w) = Some chunk_size
    ∧ trace w
      = ((λ batch : list QueryItem, EncodeQueries (q_text <$> batch))
           <$> chunks (Z.to_nat chunk_size) queries)
        ++ [StartPool (target_devices self)]
        ++ (EncodeCorpus
              <$> range (len (chunks (Z.to_nat chunk_size) (prepare_corpus self corpus))))
        ++ [StopPool; Compute].
Proof.
  intros (_ & c & _ & _ & _ & _ & ->)%search_Ok.
  exists (Z.min c (len corpus - 1)). split; [done|]. simpl.
  unfold job_events, dispatch_events, query_events. simpl.
  rewrite enumerate_events. by rewrite <- !app_assoc.
Qed.


(** ** The size of the table *)

(** The rows one chunk adds to the table in a job with [top_k = k0]. *)
Definition rows_of (k0 : Z) (chunk : list CorpusItem) : nat :=
  Z.to_nat (Z.min (k0 + 1) (len chunk)).

Lemma worker_loop_size self inputs k0 :
  top_k self = Some k0 →
  (∀ id ch, ∃ rows, process_chunk self id ch = Ok rows) →
  length (worker_loop self inputs)
  = sum_list ((λ p : Z * list CorpusItem, rows_of k0 p.2) <$> inputs).
Proof.
  intros Hk Hall. induction inputs as [|[id ch] inputs IH]; [done|].
  simpl. destruct (Hall id ch) as [rows Hp]. rewrite Hp.
  rewrite length_app, (process_chunk_length _ _ _ _ _ Hk Hp), IH. done.
Qed.

Lemma filter_all {A} (P : A → Prop) `{!∀ x, Decision (P x)} (l : list A) :
  Forall P l → filter P l = l.
Proof.
  induction 1 as [|x l Hx _ IH]; [done|].
  by rewrite filter_cons_True, IH.
Qed.

Lemma worker_loop_real_rows self inputs :
  Forall (λ p : Z * list CorpusItem, p.1 ≠ -1) inputs →
  real_rows (worker_loop self inputs) = worker_loop self inputs.
Proof.
  intros Hids. apply filter_all, Forall_forall. intros r Hr.
  apply worker_loop_rows in Hr as (id & ch & rows & Hin & Hp & Hr).
  destruct (process_chunk_rows _ _ _ _ _ Hp Hr) as (Hid & _).
  rewrite Hid. rewrite Forall_forall in Hids. apply (Hids (id, ch) Hin).
Qed.

Lemma sum_filter_lt_S {A} (g h : A → nat) (l : list A) m :
  sum_list (g <$> filter (λ p, h p < S m)%nat l)
  = (sum_list (g <$> filter (λ p, h p < m)%nat l)
     + sum_list (g <$> filter (λ p, h p = m) l))%nat.
Proof.
  induction l as [|x l IH]; [done|].
  rewrite !filter_cons. repeat case_decide; csimpl; lia.
Qed.

Lemma gathered_size self (h : Z * list CorpusItem → nat) inputs k0 m :
  top_k self = Some k0 →
  (∀ id ch, ∃ rows, process_chunk self id ch = Ok rows) →
  length (mjoin ((λ w, _encode_multi_process_worker self (filter (λ p, h p = w) inputs))
                   <$> seq 0 m))
  = (m + sum_list ((λ p : Z * list CorpusItem, rows_of k0 p.2)
                     <$> filter (λ p, h p < m)%nat inputs))%nat.
Proof.
  intros Hk Hall. induction m as [|m IH].
  - simpl. induction inputs as [|p inputs IHi]; [done|].
    rewrite filter_cons. case_decide; [lia|done].
  - rewrite seq_S, fmap_app, join_app, length_app, IH, sum_filter_lt_S.
    change (0 + m)%nat with m. rewrite list_fmap_singleton.
    change (mjoin [?x]) with (x ++ []). rewrite app_nil_r.
    unfold _encode_multi_process_worker. rewrite length_app.
    rewrite (worker_loop_size _ _ _ Hk Hall). simpl. lia.
Qed.

Lemma gathered_real_size self (h : Z * list CorpusItem → nat) inputs k0 m :
  top_k self = Some k0 →
  (∀ id ch, ∃ rows, process_chunk self id ch = Ok rows) →
  Forall (λ p : Z * list CorpusItem, p.1 ≠ -1) inputs →
  length (real_rows (mjoin ((λ w, _encode_multi_process_worker self
                                    (filter (λ p, h p = w) inputs)) <$> seq 0 m)))
  = sum_list ((λ p : Z * list CorpusItem, rows_of k0 p.2)
                <$> filter (λ p, h p < m)%nat inputs).
Proof.
  intros Hk Hall Hids. induction m as [|m IH].
  - simpl. clear Hids. induction inputs as [|p inputs IHi]; [done|].
    rewrite filter_cons. case_decide; [lia|done].
  - rewrite seq_S, fmap_app, join_app, real_rows_app, length_app, IH, sum_filter_lt_S.
    change (0 + m)%nat with m. rewrite list_fmap_singleton.
    change (mjoin [?x]) with (x ++ []). rewrite app_nil_r.
    rewrite real_rows_worker, worker_loop_real_rows.
    + by rewrite (worker_loop_size _ _ _ Hk Hall).
    + apply Forall_forall. intros p [_ Hp]%list_elem_of_filter.
      rewrite Forall_forall in Hids. by apply Hids.
Qed.

Lemma sum_enumerate {A} (g : A → nat) (l : list A) :
  sum_list ((λ p : Z * A, g p.2) <$> enumerate l) = sum_list (g <$> l).
Proof.
  unfold enumerate. f_equal.
  apply list_eq. intros i. rewrite !list_lookup_fmap, list_lookup_imap.
  by destruct (l !! i).
Qed.

Lemma filter_schedule self (dl : list (list CorpusItem)) :
  target_devices self ≠ [] →
  filter (λ p : Z * list CorpusItem,
            sched (Z.to_nat p.1) `mod` length (target_devices self)
            < length (target_devices self))%nat (enumerate dl)
  = enumerate dl.
Proof.
  intros Hdev. apply filter_all, Forall_forall. intros p _.
  apply Nat.mod_upper_bound. by destruct (target_devices self).
Qed.

(** X15. The table [metric.compute()] reads at the end of a job of at least two
    queries with a [top_k] of at least [-1] and at least one device: one
    warm-up row for every worker, whether or not it took a chunk off the
    queue, and [min(top_k + 1, n_chunk_items)] rows for every chunk, however
    the chunks were shared out; the rows that are not warm-up rows are
    exactly as many as the chunks give. *)
Theorem compute_table_size self dl name k0 :
  score_function self = Some name → known_score_function name →
  top_k self = Some k0 → -1 ≤ k0 →
  (2 ≤ length (query_embeddings self))%nat →
  target_devices self ≠ [] →
  length (compute self dl)
  = (length (target_devices self) + sum_list (rows_of k0 <$> dl))%nat
  ∧ length (real_rows (compute self dl)) = sum_list (rows_of k0 <$> dl).
Proof.
  intros Hname Hknown Hk Hk0 Hq Hdev.
  assert (∀ id ch, ∃ rows, process_chunk self id ch = Ok rows) as Hall.
  { intros id ch. apply (process_chunk_total self name k0); try done.
    by apply score_functions_known. }
  unfold compute, inputs_of. split.
  - rewrite (gathered_size self
      (λ p, sched (Z.to_nat p.1) `mod` length (target_devices self))%nat _ k0 _ Hk Hall).
    by rewrite (filter_schedule _ _ Hdev), (sum_enumerate (rows_of k0)).
  - rewrite (gathered_real_size self
      (λ p, sched (Z.to_nat p.1) `mod` length (target_devices self))%nat _ k0 _ Hk Hall).
    + by rewrite (filter_schedule _ _ Hdev), (sum_enumerate (rows_of k0)).
    + apply Forall_forall. intros [id ch] (b & -> & _)%enumerate_elem. simpl. lia.
Qed.

(** ** The merge stage, the errors at job start and not-a-number scores *)

(** The table of a job read through the object [search] leaves behind. *)
Lemma compute_job_self self chunk_size res queries k name dl :
  compute (set_results res (job_self (set_corpus_chunk_size chunk_size self) queries k name)) dl
  = compute (job_self self queries k name) dl.
Proof. by apply compute_ext. Qed.

Lemma process_chunk_job_self self chunk_size res queries k name id sentences :
  process_chunk
    (set_results res (job_self (set_corpus_chunk_size chunk_size self) queries k name))
    id sentences
  = process_chunk (job_self self queries k name) id sentences.
Proof. by apply process_chunk_ext. Qed.

(** What a row of the table resolves to is an expected entry. *)
Lemma resolved_expected self chunk_size corpus queries k name q c s :
  0 < chunk_size →
  resolved chunk_size (c_id <$> prepare_corpus self corpus) (q_id <$> queries)
    (job_rows self chunk_size corpus queries k name) q c s →
  expected_entry self chunk_size corpus queries k name q c s.
Proof.
  intros Hcs (r & qi & i & Hr & Hreal & Hqi & Hqid & Hi & Hs & Hcid & Hne).
  destruct (job_rows_origin _ _ _ _ _ _ _ Hr Hreal) as (b & chunk & rows & Hb & Hchunk & Hp & Hrows).
  destruct (job_rows_real _ _ _ _ _ _ _ Hr Hreal)
    as (b' & chunk' & f & Hb' & Hchunk' & Hf & _ & _ & Hslot).
  assert (b' = b) as -> by lia. assert (chunk' = chunk) as -> by congruence.
  apply py_getitem_nonneg in Hqid; [|done].
  rewrite list_lookup_fmap in Hqid.
  destruct (queries !! Z.to_nat qi) as [query|] eqn:Hquery; [|done].
  injection Hqid as Hqid.
  destruct (Hslot _ _ Hquery) as (j & doc & Hj & Hidx & Hval).
  apply py_getitem_nonneg in Hi; [|done]. apply py_getitem_nonneg in Hs; [|done].
  assert (i = Z.of_nat j) as -> by congruence.
  pose proof (global_position_chunk _ _ _ _ _ _ Hchunk Hj) as Hpos.
  rewrite Z2Nat.id in Hpos by lia. rewrite Hb in Hcid.
  apply py_getitem_nonneg in Hcid; [|unfold global_position; lia].
  rewrite list_lookup_fmap, Hpos in Hcid. injection Hcid as Hcid.
  exists (Z.to_nat qi), b, j, query, chunk, rows, r, doc, f.
  repeat split; try done. congruence.
Qed.

(** What a row resolves to is kept by the merge. *)
Lemma resolved_kept chunk_size corpus_ids query_ids rows res q c s :
  merged chunk_size corpus_ids query_ids (len query_ids) rows = Ok res →
  resolved chunk_size corpus_ids query_ids rows q c s →
  kept res q c.
Proof.
  intros Hm (r & qi & i & Hr & Hreal & Hqi & Hqid & Hi & _ & Hc & Hne).
  unfold merged in Hm.
  apply (merge_queries_kept _ _ _ _ _ _ _ qi q r i c Hm); try done.
  apply py_getitem_nonneg in Hqid; [|done]. apply lookup_lt_Some in Hqid.
  unfold range. apply list_elem_of_fmap. exists (Z.to_nat qi). split; [lia|].
  apply elem_of_seq. unfold len. lia.
Qed.

(** C2. Global positions in the merge stage.  In a run of [search] that
    returns, take any query index and any row of the table that is not a
    warm-up row.  The row's local index for the query, plus
    [batch_index * chunk_size], is a position of the corpus in the order it
    was streamed (sorted when sorting is on), and the document there is the
    very document the worker scored: the one at that local index of that
    chunk.  The merge loop looks the corpus id up at that position and,
    unless it is the query's own id, stores it under the query's id; with
    distinct ids the score stored is the row's.  Nothing else is stored:
    every entry of the results comes from such a position.  Local index 2
    of chunk 1 with chunks of 3 is position 5. *)
Theorem search_resolves_global_position self corpus queries top_k name w res :
  run (search corpus queries top_k name) self = (w, Ok res) →
  global_position 3 1 2 = 5
  ∧ ∃ chunk_size f,
      corpus_chunk_size (obj w) = Some chunk_size
      ∧ score_functions !! name = Some f
      ∧ let stream := prepare_corpus self corpus in
        let table := compute (obj w) (chunks (Z.to_nat chunk_size) stream) in
        (∀ (qi : nat) query r,
           queries !! qi = Some query → r ∈ table → batch_index r ≠ -1 →
           ∃ (b j : nat) chunk doc score,
             batch_index r = Z.of_nat b
             ∧ cos_scores_top_k_idx r !! qi = Some (Z.of_nat j)
             ∧ cos_scores_top_k_values r !! qi = Some score
             ∧ chunks (Z.to_nat chunk_size) stream !! b = Some chunk
             ∧ chunk !! j = Some doc
             ∧ stream !! Z.to_nat (global_position chunk_size (batch_index r) (Z.of_nat j))
               = Some doc
             ∧ py_getitem (c_id <$> stream)
                 (global_position chunk_size (batch_index r) (Z.of_nat j))
               = Ok (c_id doc)
             ∧ score = nan_to_minus_one (f (embed_query (q_text query)) (embed_doc doc))
             ∧ (c_id doc ≠ q_id query →
                ∃ m s, res !! q_id query = Some m ∧ m !! c_id doc = Some s
                     ∧ (NoDup (c_id <$> corpus) → NoDup (q_id <$> queries) →
                        s = score)))
        ∧ ∀ q m c s, res !! q = Some m → m !! c = Some s →
            ∃ (qi b j : nat) query chunk doc,
              queries !! qi = Some query ∧ q_id query = q
              ∧ chunks (Z.to_nat chunk_size) stream !! b = Some chunk
              ∧ chunk !! j = Some doc
              ∧ stream !! Z.to_nat (global_position chunk_size (Z.of_nat b) (Z.of_nat j))
                = Some doc
              ∧ c_id doc = c ∧ c ≠ q
              ∧ s = nan_to_minus_one (f (embed_query (q_text query)) (embed_doc doc)).
Proof.
  intros (Hname & c & _ & Hcs & Hq & Hm & ->)%search_Ok.
  split; [done|].
  set (cs := Z.min c (len corpus - 1)) in *.
  rewrite (job_merged_ext _ self) in Hm by done.
  destruct (score_functions_known name Hname) as [f Hf].
  exists cs, f. split; [done|]. split; [done|].
  intros stream table.
  assert (table = job_rows self cs corpus queries top_k name) as ->.
  { unfold table, job_rows. simpl. apply compute_job_self. }
  split.
  - intros qi query r Hquery Hr Hreal.
    destruct (job_rows_origin _ _ _ _ _ _ _ Hr Hreal)
      as (b & chunk & rows & Hb & Hchunk & Hp & Hrows).
    destruct (job_rows_real _ _ _ _ _ _ _ Hr Hreal)
      as (b' & chunk' & f' & Hb' & Hchunk' & Hf' & _ & _ & Hslot).
    assert (b' = b) as -> by lia. assert (chunk' = chunk) as -> by congruence.
    assert (f' = f) as -> by congruence.
    destruct (Hslot _ _ Hquery) as (j & doc & Hj & Hidx & Hval).
    pose proof (global_position_chunk _ _ _ _ _ _ Hchunk Hj) as Hpos.
    rewrite Z2Nat.id in Hpos by lia. rewrite <- Hb in Hpos.
    fold stream in Hpos, Hchunk.
    assert (py_getitem (c_id <$> stream)
              (global_position cs (batch_index r) (Z.of_nat j)) = Ok (c_id doc)) as Hid.
    { apply py_getitem_nonneg; [unfold global_position; lia|].
      by rewrite list_lookup_fmap, Hpos. }
    exists b, j, chunk, doc,
      (nan_to_minus_one (f (embed_query (q_text query)) (embed_doc doc))).
    split; [done|]. split; [done|]. split; [done|]. split; [done|].
    split; [done|]. split; [done|]. split; [done|]. split; [done|].
    intros Hne.
    assert (expected_entry self cs corpus queries top_k name (q_id query) (c_id doc)
              (nan_to_minus_one (f (embed_query (q_text query)) (embed_doc doc)))) as Hexp.
    { exists qi, b, j, query, chunk, rows, r, doc, f. done. }
    destruct (resolved_kept cs (c_id <$> stream) (q_id <$> queries)
                (job_rows self cs corpus queries top_k name) res (q_id query) (c_id doc)
                (nan_to_minus_one (f (embed_query (q_text query)) (embed_doc doc))))
      as (m & Hm1 & [s Hs]).
    { unfold job_merged in Hm. unfold len in *. by rewrite length_fmap. }
    { exists r, (Z.of_nat qi), (Z.of_nat j).
      split; [done|]. split; [done|]. split; [lia|]. split.
      { apply py_getitem_nonneg; [lia|].
        by rewrite Nat2Z.id, list_lookup_fmap, Hquery. }
      split; [apply py_getitem_nonneg; [lia|]; by rewrite Nat2Z.id|].
      split; [apply py_getitem_nonneg; [lia|]; by rewrite Nat2Z.id|].
      done. }
    exists m, s. split; [done|]. split; [done|].
    intros Hcids Hqids.
    eapply expected_entry_unique; [exact Hcids|exact Hqids| |exact Hexp].
    by eapply job_entry_expected.
  - intros q m cid s Hres Hcid.
    destruct (job_entry_expected _ _ _ _ _ _ _ _ _ _ _ Hcs Hm Hres Hcid)
      as (qi & b & j & query & chunk & rows & r & doc & f' & Hquery & Hqid & Hchunk & _
          & _ & _ & Hj & Hdoc & Hne & Hf' & ->).
    assert (f' = f) as -> by congruence.
    pose proof (global_position_chunk _ _ _ _ _ _ Hchunk Hj) as Hpos.
    rewrite Z2Nat.id in Hpos by lia.
    exists qi, b, j, query, chunk, doc. done.
Qed.






(** C5, as the code has it.  For a job of at least two queries and a
    [top_k] of at least [-1], on a corpus of at least two documents with at
    least one device, distinct corpus ids and distinct query ids: [search]
    returns, so a not-a-number score is never surfaced as an error, and no
    stored score is not-a-number.  Every chunk is processed; a document
    whose score against a query is not-a-number is selected for the query
    only with the value [-1] and only when every document of its chunk
    scoring above [-1] is selected too; and it then is in the final results
    of that query with score [-1], unless its id is the query's own. *)
Theorem nan_scores_replaced self corpus queries k name c :
  known_score_function name →
  requested_chunk_size self (len corpus) = Ok c → 1 ≤ c →
  (2 ≤ length corpus)%nat → (2 ≤ length queries)%nat → -1 ≤ k →
  target_devices self ≠ [] →
  NoDup (c_id <$> corpus) → NoDup (q_id <$> queries) →
  ∃ w res f,
    run (search corpus queries k name) self = (w, Ok res)
    ∧ score_functions !! name = Some f
    ∧ (∀ q m cid s, res !! q = Some m → m !! cid = Some s → isnan s = false)
    ∧ ∀ (b : nat) chunk,
        chunks (Z.to_nat (Z.min c (len corpus - 1))) (prepare_corpus self corpus) !! b
          = Some chunk →
        ∃ rows,
          process_chunk (obj w) (Z.of_nat b) chunk = Ok rows
          ∧ (∀ r v, r ∈ rows → v ∈ cos_scores_top_k_values r → isnan v = false)
          ∧ ∀ (qi i : nat) query d v,
              queries !! qi = Some query → chunk !! i = Some d →
              isnan (f (embed_query (q_text query)) (embed_doc d)) = true →
              selected rows qi i v →
              v = minus_one
              ∧ (∀ j d', chunk !! j = Some d' →
                   fl_ltb minus_one
                     (nan_to_minus_one (f (embed_query (q_text query)) (embed_doc d')))
                     = true →
                   ∃ v', selected rows qi j v')
              ∧ (c_id d ≠ q_id query →
                   ∃ m, res !! q_id query = Some m ∧ m !! c_id d = Some minus_one).
Proof.
  intros Hname Hc Hc1 Hlen Hq Hk Hdev Hcids Hqids.
  set (cs := Z.min c (len corpus - 1)).
  assert (0 < cs) as Hcs by (unfold cs, len; lia).
  assert (queries ≠ []) as Hne by (destruct queries; [simpl in Hq; lia|done]).
  destruct (job_merged_total self cs corpus queries k name Hcs) as [res Hm].
  destruct (score_functions_known name Hname) as [f Hf].
  assert (run (search corpus queries k name) self
          = ({| obj := set_results res
                         (job_self (set_corpus_chunk_size cs self) queries k name);
                trace := job_events (set_corpus_chunk_size cs self) cs corpus queries |},
             Ok res)) as Hrun.
  { rewrite search_run, bool_decide_eq_true_2, Hc by done. fold cs.
    destruct (search_job_run cs corpus queries k name
                {| obj := set_corpus_chunk_size cs self; trace := [] |})
      as (res' & -> & Hres'); [done..|].
    simpl in *. rewrite (job_merged_ext _ self) in * by done.
    rewrite Hm. by rewrite (Hres' res Hm). }
  eexists _, res, f. split; [exact Hrun|]. split; [done|]. split.
  { intros q m cid s Hres Hcid.
    destruct (job_entry_expected _ _ _ _ _ _ _ _ _ _ _ Hcs Hm Hres Hcid)
      as (qi & b & j & query & chunk & rows & r & doc & f' & _ & _ & _ & _ & _ & _ & _
          & _ & _ & _ & ->).
    apply nan_to_minus_one_not_nan. }
  intros b chunk Hchunk. simpl. rewrite process_chunk_job_self.
  destruct (worker_replaces_nan (job_self self queries k name) name k (Z.of_nat b) chunk)
    as (rows & f' & Hrows & Hf' & Hnonan & Hsel);
    [done|done|done|done|by simpl; rewrite !length_fmap|].
  assert (f' = f) as -> by congruence.
  exists rows. split; [done|]. split; [done|].
  intros qi i query d v Hquery Hd Hnan Hiv.
  destruct (Hsel qi (embed_query (q_text query)) i d v) as [-> Hbetter]; [|done..|].
  { simpl. by rewrite !list_lookup_fmap, Hquery. }
  split; [done|]. split; [done|].
  intros Hself. destruct Hiv as (r & Hr & Hidx & _).
  assert (expected_entry self cs corpus queries k name (q_id query) (c_id d)
            (nan_to_minus_one (f (embed_query (q_text query)) (embed_doc d)))) as Hexp.
  { exists qi, b, i, query, chunk, rows, r, d, f. done. }
  apply (job_entries self cs corpus queries k name res _ _ _ Hcs Hdev Hcids Hqids Hm)
    in Hexp.
  destruct (res !! q_id query) as [m|]; [|done]. simpl in Hexp.
  exists m. split; [done|]. rewrite Hexp. unfold nan_to_minus_one. by rewrite Hnan.
Qed.

(** ** The order of the rows in the table *)

(** Two tables with the same rows merge to the same mapping, as soon as no
    two rows give one document two scores for a query. *)
Lemma merged_same_rows chunk_size corpus_ids query_ids rows rows' res res' :
  (∀ r, r ∈ rows' ↔ r ∈ rows) →
  (∀ q c s s',
     resolved chunk_size corpus_ids query_ids rows q c s →
     resolved chunk_size corpus_ids query_ids rows q c s' → s = s') →
  merged chunk_size corpus_ids query_ids (len query_ids) rows = Ok res →
  merged chunk_size corpus_ids query_ids (len query_ids) rows' = Ok res' →
  res' = res.
Proof.
  intros Hrows Hfun Hm Hm'.
  assert (∀ q c s, resolved chunk_size corpus_ids query_ids rows' q c s
                   ↔ resolved chunk_size corpus_ids query_ids rows q c s) as Hres.
  { intros q c s. unfold resolved. by setoid_rewrite Hrows. }
  pose proof (merged_dom _ _ _ _ _ _ Hm) as Hdom.
  pose proof (merged_dom _ _ _ _ _ _ Hm') as Hdom'.
  apply map_eq. intros q.
  destruct (res' !! q) as [m'|] eqn:Hq'; destruct (res !! q) as [m|] eqn:Hq.
  - f_equal. apply map_eq. intros c.
    destruct (m' !! c) as [s'|] eqn:Hc'; destruct (m !! c) as [s|] eqn:Hc.
    + f_equal. apply (Hfun q c).
      * apply Hres. by apply (merged_resolved _ _ _ _ _ _ Hm' q m').
      * by apply (merged_resolved _ _ _ _ _ _ Hm q m).
    + exfalso.
      pose proof (merged_resolved _ _ _ _ _ _ Hm' q m' c s' Hq' Hc') as Hr.
      apply Hres in Hr.
      destruct (resolved_kept _ _ _ _ _ _ _ _ Hm Hr) as (m0 & Hm0 & [s Hs]).
      congruence.
    + exfalso.
      pose proof (merged_resolved _ _ _ _ _ _ Hm q m c s Hq Hc) as Hr.
      apply Hres in Hr.
      destruct (resolved_kept _ _ _ _ _ _ _ _ Hm' Hr) as (m0 & Hm0 & [s' Hs']).
      congruence.
    + done.
  - exfalso. apply (not_elem_of_dom res q); [done|].
    rewrite Hdom, <- Hdom'. apply elem_of_dom. eauto.
  - exfalso. apply (not_elem_of_dom res' q); [done|].
    rewrite Hdom', <- Hdom. apply elem_of_dom. eauto.
  - done.
Qed.

(** X14. The order of the rows in the table has no influence on the
    result.  Which worker takes which chunk, and in which order the workers'
    rows are gathered, only moves rows around in the table: with distinct
    corpus ids and distinct query ids, the merge loop run on any
    rearrangement of the table of a job that returned ends without an
    exception and leaves the mapping the job returned in [self.results]. *)
Theorem search_ignores_row_order self corpus queries k name w res chunk_size rows' w0 :
  NoDup (c_id <$> corpus) → NoDup (q_id <$> queries) →
  run (search corpus queries k name) self = (w, Ok res) →
  corpus_chunk_size (obj w) = Some chunk_size →
  rows' ≡ₚ compute (obj w) (chunks (Z.to_nat chunk_size) (prepare_corpus self corpus)) →
  merge chunk_size (c_id <$> prepare_corpus self corpus) (q_id <$> queries)
    (len queries) rows' w0
  = (with_results res w0, Ok ()).
Proof.
  intros Hcids Hqids (Hname & c & _ & Hcs & Hq & Hm & ->)%search_Ok [= <-] Hperm.
  set (cs := Z.min c (len corpus - 1)) in Hcs, Hm, Hperm |- *.
  rewrite (job_merged_ext _ self) in Hm by done.
  simpl in Hperm. rewrite compute_job_self in Hperm.
  fold (job_rows self cs corpus queries k name) in Hperm.
  assert (len queries = len (q_id <$> queries)) as Hlen
    by (unfold len; by rewrite length_fmap).
  destruct (merged_total cs (c_id <$> prepare_corpus self corpus) (q_id <$> queries)
              (len queries) rows') as [res' Hm'].
  { lia. }
  { apply Forall_forall. intros r Hr. rewrite Hperm in Hr. revert r Hr.
    apply Forall_forall. by apply job_rows_readable. }
  assert (res' = res) as ->.
  { unfold job_merged in Hm. rewrite Hlen in Hm, Hm'.
    apply (merged_same_rows cs (c_id <$> prepare_corpus self corpus) (q_id <$> queries)
             (job_rows self cs corpus queries k name) rows'); [| |done|done].
    - intros r. by rewrite Hperm.
    - intros q cid s s' Hs Hs'.
      apply (expected_entry_unique self cs corpus queries k name q cid); [done|done|..];
        by apply resolved_expected. }
  destruct (merge_run cs (c_id <$> prepare_corpus self corpus) (q_id <$> queries)
              (len queries) rows' w0) as (res'' & -> & Hres).
  rewrite Hm'. by rewrite (Hres _ Hm').
Qed.
End DenseRetrievalParallelExactSearch.

(** ** Runs on the small model *)

Module Runs.
Import Toy.

Definition toy_search (self : Self (list Z)) (corpus : list CorpusItem)
    (queries : list QueryItem) (k : Z) (name : string) :=
  run (list Z)
    (search (list Z) embed embed_doc cos_sim dot_score round_robin
       corpus queries k name) self.

Definition toy_worker (self : Self (list Z)) (id : Z) (sentences : list CorpusItem) :=
  process_chunk (list Z) embed_doc cos_sim dot_score self id sentences.

Definition two_cpus : list string := ["cpu"; "cpu"].

(** Seven documents of lengths 7 down to 1. *)
Definition corpus7 : list CorpusItem :=
  [doc "a" "1000000"; doc "b" "010000"; doc "c" "00100"; doc "d" "0001";
   doc "e" "001"; doc "f" "01"; doc "g" "1"].

(** The first query has the id of document "a". *)
Definition queries2 : list QueryItem := [query "a" "34"; query "q2" "10"].

(** Three documents, the longest of them the zero vector. *)
Definition corpus3 : list CorpusItem := [doc "x" "43"; doc "z" "000"; doc "y" "6"].

Definition ok_value {A} (d : A) (r : result A) : A :=
  match r with
  | Ok a => a
  | Raise _ => d
  end.

(** Chunks of 3 (sizes 3, 3, 1), [top_k = 1]. *)
Definition run7 := toy_search (__init__ (list Z) 128 (Some 3) two_cpus) corpus7 queries2 1 "cos_sim".
Definition res7 : results_t := ok_value ∅ run7.2.

Definition run3 := toy_search (__init__ (list Z) 128 (Some 2) two_cpus) corpus3 queries2 1 "cos_sim".
Definition res3 : results_t := ok_value ∅ run3.2.

Definition lookup2 (res : results_t) (q c : string) : option fl :=
  res !! q ≫= λ m : gmap string fl, m !! c.

Example run7_results :
  map_to_list <$> res7 !! "q2"
  = Some [("g", Num 1); ("c", Num 0); ("a", Num 1); ("f", Num 0); ("d", Num 0)]
  ∧ map_to_list <$> res7 !! "a"
    = Some [("g", Num (3 # 5)); ("f", Num (4 # 5)); ("b", Num (4 # 5)); ("d", Num 0)].
Proof. split; vm_compute; reflexivity. Qed.

End Runs.

(** ** The theorems at concrete inputs *)

Lemma search_no_self_match_witness :
  Runs.run7 = (Runs.run7.1, Ok Runs.res7)
  ∧ ∀ q m, Runs.res7 !! q = Some m → m !! q = None.
Proof.
  assert (Runs.run7 = (Runs.run7.1, Ok Runs.res7)) as Hrun by (vm_compute; reflexivity).
  split; [exact Hrun|].
  exact (search_no_self_match _ _ _ _ _ _ _ _ _ _ _ _ _ Hrun).
Defined.

Definition inner7 : gmap string fl := default ∅ (Runs.res7 !! "q2").

Lemma search_result_size_witness :
  NoDup (q_id <$> Runs.queries2)
  ∧ Runs.run7 = (Runs.run7.1, Ok Runs.res7)
  ∧ Runs.res7 !! "q2" = Some inner7
  ∧ ∃ chunk_size,
      corpus_chunk_size _ (obj _ Runs.run7.1) = Some chunk_size
      ∧ (size inner7 ≤ length (chunks (Z.to_nat chunk_size) Runs.corpus7)
                       * Z.to_nat (1 + 1))%nat.
Proof.
  assert (NoDup (q_id <$> Runs.queries2)) as Hnd
    by (apply (bool_decide_unpack _); vm_compute; exact I).
  assert (Runs.run7 = (Runs.run7.1, Ok Runs.res7)) as Hrun by (vm_compute; reflexivity).
  assert (Runs.res7 !! "q2" = Some inner7) as Hq by (vm_compute; reflexivity).
  split; [exact Hnd|]. split; [exact Hrun|]. split; [exact Hq|].
  exact (search_result_size _ _ _ _ _ _ _ _ _ _ _ _ _ _ _ Hnd Hrun Hq).
Defined.

(** With [top_k = 1] and three chunks, query "q2" comes back with five
    corpus ids. *)
Lemma result_size_exceeds_top_k :
  Runs.run7.2 = Ok Runs.res7
  ∧ ∃ m, Runs.res7 !! "q2" = Some m ∧ ¬ (Z.of_nat (size m) ≤ 1).
Proof.
  split; [vm_compute; reflexivity|].
  exists inner7. split; [vm_compute; reflexivity|].
  vm_compute. intros H. apply H. reflexivity.
Qed.

Definition self7 : Self (list Z) := __init__ (list Z) 128 (Some 3) Runs.two_cpus.

Lemma search_resolves_global_position_witness :
  Runs.run7 = (Runs.run7.1, Ok Runs.res7)
  ∧ global_position 3 1 2 = 5
  ∧ ∃ chunk_size f,
      corpus_chunk_size _ (obj _ Runs.run7.1) = Some chunk_size
      ∧ score_functions _ Toy.cos_sim Toy.dot_score !! "cos_sim" = Some f
      ∧ let stream := prepare_corpus _ self7 Runs.corpus7 in
        let table :=
          compute _ Toy.embed_doc Toy.cos_sim Toy.dot_score Toy.round_robin
            (obj _ Runs.run7.1) (chunks (Z.to_nat chunk_size) stream) in
        (∀ (qi : nat) query r,
           Runs.queries2 !! qi = Some query → r ∈ table → batch_index r ≠ -1 →
           ∃ (b j : nat) chunk doc score,
             batch_index r = Z.of_nat b
             ∧ cos_scores_top_k_idx r !! qi = Some (Z.of_nat j)
             ∧ cos_scores_top_k_values r !! qi = Some score
             ∧ chunks (Z.to_nat chunk_size) stream !! b = Some chunk
             ∧ chunk !! j = Some doc
             ∧ stream !! Z.to_nat (global_position chunk_size (batch_index r) (Z.of_nat j))
               = Some doc
             ∧ py_getitem (c_id <$> stream)
                 (global_position chunk_size (batch_index r) (Z.of_nat j))
               = Ok (c_id doc)
             ∧ score = nan_to_minus_one (f (Toy.embed (q_text query)) (Toy.embed_doc doc))
             ∧ (c_id doc ≠ q_id query →
                ∃ m s, Runs.res7 !! q_id query = Some m ∧ m !! c_id doc = Some s
                     ∧ (NoDup (c_id <$> Runs.corpus7) → NoDup (q_id <$> Runs.queries2) →
                        s = score)))
        ∧ ∀ q m c s, Runs.res7 !! q = Some m → m !! c = Some s →
            ∃ (qi b j : nat) query chunk doc,
              Runs.queries2 !! qi = Some query ∧ q_id query = q
              ∧ chunks (Z.to_nat chunk_size) stream !! b = Some chunk
              ∧ chunk !! j = Some doc
              ∧ stream !! Z.to_nat (global_position chunk_size (Z.of_nat b) (Z.of_nat j))
                = Some doc
              ∧ c_id doc = c ∧ c ≠ q
              ∧ s = nan_to_minus_one (f (Toy.embed (q_text query)) (Toy.embed_doc doc)).
Proof.
  assert (Runs.run7 = (Runs.run7.1, Ok Runs.res7)) as Hrun by (vm_compute; reflexivity).
  split; [exact Hrun|].
  exact (search_resolves_global_position _ Toy.embed Toy.embed_doc Toy.cos_sim
           Toy.dot_score Toy.round_robin self7 Runs.corpus7 Runs.queries2 1 "cos_sim"
           _ _ Hrun).
Defined.

(** The chunk boundary in that run: the table has a row of chunk 1 whose
    local index for query "q2" is 2; position 5 of the stream is document
    "f", and "f" is in the results of "q2" with the row's score. *)
Example run7_chunk_boundary :
  {| cos_scores_top_k_values := [Num (4 # 5); Num 0];
     cos_scores_top_k_idx := [2; 2];
     batch_index := 1 |}
    ∈ compute _ Toy.embed_doc Toy.cos_sim Toy.dot_score Toy.round_robin
        (obj _ Runs.run7.1) (chunks 3 (prepare_corpus _ self7 Runs.corpus7))
  ∧ py_getitem (c_id <$> prepare_corpus _ self7 Runs.corpus7) (global_position 3 1 2)
    = Ok "f"
  ∧ Runs.lookup2 Runs.res7 "q2" "f" = Some (Num 0).
Proof.
  split; [|split; vm_compute; reflexivity].
  apply list_elem_of_lookup. exists 5%nat. vm_compute. reflexivity.
Qed.


Definition run1 :=
  Runs.toy_search (__init__ (list Z) 128 None Runs.two_cpus) Runs.corpus7
    [Toy.query "q1" "34"] 1 "dot".

Lemma single_query_selects_nothing_witness :
  run1 = (run1.1, Ok {[ "q1" := ∅ ]})
  ∧ (∀ id sentences, Runs.toy_worker (obj _ run1.1) id sentences = Raise IndexError)
  ∧ Runs.ok_value ∅ run1.2 = {[ "q1" := ∅ ]}.
Proof.
  assert (run1 = (run1.1, Ok (Runs.ok_value ∅ run1.2))) as Hrun
    by (vm_compute; reflexivity).
  destruct (single_query_selects_nothing _ _ _ _ _ _ _ _ _ _ _ _ _ Hrun)
    as [Hworker Hres].
  change (q_id (Toy.query "q1" "34")) with "q1" in Hres.
  split; [by rewrite <- Hres|]. split; [exact Hworker|exact Hres].
Defined.

(** A job of two queries scored by cosine similarity, [top_k = 1], on a
    chunk whose first document is the zero vector. *)
Definition nan_job : Self (list Z) :=
  set_job _ [Toy.embed "34"; Toy.embed "10"] 1 "cos_sim"
    (__init__ (list Z) 128 (Some 2) Runs.two_cpus).

Definition nan_chunk : list CorpusItem := [Toy.doc "z" "000"; Toy.doc "x" "43"].

Definition self3 : Self (list Z) := __init__ (list Z) 128 (Some 2) Runs.two_cpus.

Lemma nan_scores_replaced_witness :
  known_score_function "cos_sim"
  ∧ requested_chunk_size _ self3 (len Runs.corpus3) = Ok 2
  ∧ 1 ≤ 2
  ∧ (2 ≤ length Runs.corpus3)%nat
  ∧ (2 ≤ length Runs.queries2)%nat
  ∧ -1 ≤ 1
  ∧ target_devices _ self3 ≠ []
  ∧ NoDup (c_id <$> Runs.corpus3)
  ∧ NoDup (q_id <$> Runs.queries2)
  ∧ ∃ w res f,
      Runs.toy_search self3 Runs.corpus3 Runs.queries2 1 "cos_sim" = (w, Ok res)
      ∧ score_functions _ Toy.cos_sim Toy.dot_score !! "cos_sim" = Some f
      ∧ (∀ q m cid s, res !! q = Some m → m !! cid = Some s → isnan s = false)
      ∧ ∀ (b : nat) chunk,
          chunks (Z.to_nat (Z.min 2 (len Runs.corpus3 - 1)))
            (prepare_corpus _ self3 Runs.corpus3) !! b = Some chunk →
          ∃ rows,
            Runs.toy_worker (obj _ w) (Z.of_nat b) chunk = Ok rows
            ∧ (∀ r v, r ∈ rows → v ∈ cos_scores_top_k_values r → isnan v = false)
            ∧ ∀ (qi i : nat) query d v,
                Runs.queries2 !! qi = Some query → chunk !! i = Some d →
                isnan (f (Toy.embed (q_text query)) (Toy.embed_doc d)) = true →
                selected rows qi i v →
                v = minus_one
                ∧ (∀ j d', chunk !! j = Some d' →
                     fl_ltb minus_one
                       (nan_to_minus_one (f (Toy.embed (q_text query)) (Toy.embed_doc d')))
                       = true →
                     ∃ v', selected rows qi j v')
                ∧ (c_id d ≠ q_id query →
                     ∃ m, res !! q_id query = Some m ∧ m !! c_id d = Some minus_one).
Proof.
  assert (known_score_function "cos_sim") as Hknown by (left; reflexivity).
  assert (1 ≤ 2) as Hc by lia.
  assert (2 ≤ length Runs.corpus3)%nat as Hcorpus by (simpl; lia).
  assert (2 ≤ length Runs.queries2)%nat as Hqueries by (simpl; lia).
  assert (-1 ≤ 1) as Hk by lia.
  assert (target_devices _ self3 ≠ []) as Hdev by discriminate.
  assert (NoDup (c_id <$> Runs.corpus3)) as Hcids
    by (apply (bool_decide_unpack _); vm_compute; exact I).
  assert (NoDup (q_id <$> Runs.queries2)) as Hqids
    by (apply (bool_decide_unpack _); vm_compute; exact I).
  split; [exact Hknown|]. split; [reflexivity|]. split; [exact Hc|].
  split; [exact Hcorpus|]. split; [exact Hqueries|]. split; [exact Hk|].
  split; [exact Hdev|]. split; [exact Hcids|]. split; [exact Hqids|].
  exact (nan_scores_replaced _ Toy.embed Toy.embed_doc Toy.cos_sim Toy.dot_score
           Toy.round_robin self3 Runs.corpus3 Runs.queries2 1 "cos_sim" 2
           Hknown eq_refl Hc Hcorpus Hqueries Hk Hdev Hcids Hqids).
Defined.

(** The zero vector "z" scores not-a-number against both queries and is
    still among the results of each, with [-1], although two documents
    score higher and [top_k = 1]. *)
Lemma zero_vector_in_results :
  Toy.cos_sim (Toy.embed "10") (Toy.embed_doc (Toy.doc "z" "000")) = NaN
  ∧ Runs.run3.2 = Ok Runs.res3
  ∧ Runs.lookup2 Runs.res3 "q2" "z" = Some minus_one
  ∧ Runs.lookup2 Runs.res3 "q2" "x" = Some (Num (4 # 5))
  ∧ Runs.lookup2 Runs.res3 "q2" "y" = Some (Num 1).
Proof.
  split; [vm_compute; reflexivity|]. split; [vm_compute; reflexivity|].
  split; [vm_compute; reflexivity|]. split; vm_compute; reflexivity.
Qed.

Lemma search_derives_chunk_size_witness :
  corpus_chunk_size _ (__init__ (list Z) 128 None Runs.two_cpus) = None
  ∧ target_devices _ (__init__ (list Z) 128 None Runs.two_cpus) ≠ []
  ∧ known_score_function "dot"
  ∧ corpus_chunk_size _
      (obj _ (Runs.toy_search (__init__ (list Z) 128 None Runs.two_cpus)
                Runs.corpus7 Runs.queries2 1 "dot").1)
    = Some (Z.min (Z.min (Qceiling (inject_Z 7 / inject_Z 2 / 10)) 5000) (7 - 1)).
Proof.
  assert (target_devices _ (__init__ (list Z) 128 None Runs.two_cpus) ≠ []) as Hdev
    by discriminate.
  assert (known_score_function "dot") as Hknown by (right; reflexivity).
  split; [reflexivity|]. split; [exact Hdev|]. split; [exact Hknown|].
  exact (proj1 (proj2 (search_derives_chunk_size _ Toy.embed Toy.embed_doc
           Toy.cos_sim Toy.dot_score Toy.round_robin
           (__init__ (list Z) 128 None Runs.two_cpus) Runs.corpus7 Runs.queries2 1 "dot"
           eq_refl Hdev Hknown))).
Defined.

Lemma search_tiny_corpus_raises_witness :
  (length [Toy.doc "only" "1"] ≤ 1)%nat
  ∧ ∃ w e, Runs.toy_search (__init__ (list Z) 128 None Runs.two_cpus)
             [Toy.doc "only" "1"] Runs.queries2 1 "dot" = (w, Raise e).
Proof.
  assert (length [Toy.doc "only" "1"] ≤ 1)%nat as Hlen by (simpl; lia).
  split; [exact Hlen|].
  exact (search_tiny_corpus_raises _ Toy.embed Toy.embed_doc Toy.cos_sim
           Toy.dot_score Toy.round_robin _ _ Runs.queries2 1 "dot" Hlen).
Defined.

Lemma search_chunk_size_persists_witness :
  requested_chunk_size _ (__init__ (list Z) 128 (Some 3) Runs.two_cpus) (len Runs.corpus7)
    = Ok 3
  ∧ known_score_function "cos_sim"
  ∧ known_score_function "dot"
  ∧ corpus_chunk_size _ (obj _ Runs.run7.1) = Some (Z.min 3 (len Runs.corpus7 - 1))
  ∧ corpus_chunk_size _
      (obj _ (Runs.toy_search (obj _ Runs.run7.1) Runs.corpus3 Runs.queries2 1 "dot").1)
    = Some (Z.min (Z.min 3 (len Runs.corpus7 - 1)) (len Runs.corpus3 - 1)).
Proof.
  assert (known_score_function "cos_sim") as H1 by (left; reflexivity).
  assert (known_score_function "dot") as H2 by (right; reflexivity).
  destruct (search_chunk_size_persists _ Toy.embed Toy.embed_doc Toy.cos_sim
              Toy.dot_score Toy.round_robin
              (__init__ (list Z) 128 (Some 3) Runs.two_cpus) 3
              Runs.corpus7 Runs.queries2 1 "cos_sim"
              Runs.corpus3 Runs.queries2 1 "dot" eq_refl H1 H2)
    as (Hfirst & _ & Hsecond).
  split; [reflexivity|]. split; [exact H1|]. split; [exact H2|].
  split; [exact Hfirst|exact Hsecond].
Defined.

(** ** The further properties at concrete inputs *)

Definition fresh3 : Self (list Z) := __init__ (list Z) 128 (Some 3) Runs.two_cpus.

Lemma search_returns_witness :
  known_score_function "cos_sim"
  ∧ requested_chunk_size _ fresh3 (len Runs.corpus7) = Ok 3
  ∧ 1 ≤ 3
  ∧ (2 ≤ length Runs.corpus7)%nat
  ∧ Runs.queries2 ≠ []
  ∧ ∃ w res,
      Runs.toy_search fresh3 Runs.corpus7 Runs.queries2 1 "cos_sim" = (w, Ok res)
      ∧ dom res = list_to_set (q_id <$> Runs.queries2).
Proof.
  assert (known_score_function "cos_sim") as Hname by (left; reflexivity).
  assert (1 ≤ 3) as Hc by lia.
  assert (2 ≤ length Runs.corpus7)%nat as Hlen by (simpl; lia).
  assert (Runs.queries2 ≠ []) as Hq by discriminate.
  split; [exact Hname|]. split; [reflexivity|]. split; [exact Hc|].
  split; [exact Hlen|]. split; [exact Hq|].
  exact (search_returns _ Toy.embed Toy.embed_doc Toy.cos_sim Toy.dot_score
           Toy.round_robin fresh3 Runs.corpus7 Runs.queries2 1 "cos_sim" 3
           Hname eq_refl Hc Hlen Hq).
Defined.

Lemma search_stores_job_witness :
  Runs.run7 = (Runs.run7.1, Ok Runs.res7)
  ∧ results _ (obj _ Runs.run7.1) = Runs.res7
  ∧ top_k _ (obj _ Runs.run7.1) = Some 1
  ∧ score_function _ (obj _ Runs.run7.1) = Some "cos_sim"
  ∧ query_embeddings _ (obj _ Runs.run7.1) = Toy.embed <$> (q_text <$> Runs.queries2)
  ∧ target_devices _ (obj _ Runs.run7.1) = target_devices _ fresh3
  ∧ batch_size _ (obj _ Runs.run7.1) = batch_size _ fresh3
  ∧ sort_corpus _ (obj _ Runs.run7.1) = sort_corpus _ fresh3.
Proof.
  assert (Runs.run7 = (Runs.run7.1, Ok Runs.res7)) as Hrun by (vm_compute; reflexivity).
  split; [exact Hrun|].
  exact (search_stores_job _ _ _ _ _ _ _ _ _ _ _ _ _ Hrun).
Defined.

Definition tiny_run :=
  Runs.toy_search (__init__ (list Z) 128 None Runs.two_cpus)
    [Toy.doc "only" "1"] Runs.queries2 1 "dot".

Lemma search_never_index_error_witness :
  tiny_run = (tiny_run.1, Raise batch_size_error)
  ∧ (batch_size_error = score_function_error "dot"
     ∨ batch_size_error = ZeroDivisionError
     ∨ batch_size_error = batch_size_error
     ∨ batch_size_error = RuntimeError).
Proof.
  assert (tiny_run = (tiny_run.1, Raise batch_size_error)) as Hrun
    by (vm_compute; reflexivity).
  split; [exact Hrun|].
  exact (search_never_index_error _ _ _ _ _ _ _ _ _ _ _ _ _ Hrun).
Defined.

Lemma process_chunk_outcome_witness :
  score_function _ nan_job = Some "cos_sim"
  ∧ known_score_function "cos_sim"
  ∧ top_k _ nan_job = Some 1
  ∧ ((2 ≤ length (query_embeddings _ nan_job))%nat → -1 ≤ 1 →
     ∃ rows f,
       Runs.toy_worker nan_job 4 nan_chunk = Ok rows
       ∧ score_functions _ Toy.cos_sim Toy.dot_score !! "cos_sim" = Some f
       ∧ Z.of_nat (length rows) = Z.min (1 + 1) (len nan_chunk)
       ∧ Forall (λ r, batch_index r = 4
                    ∧ length (cos_scores_top_k_values r)
                      = length (query_embeddings _ nan_job)
                    ∧ length (cos_scores_top_k_idx r)
                      = length (query_embeddings _ nan_job)) rows
       ∧ ∀ qi q, query_embeddings _ nan_job !! qi = Some q →
           ∃ sel_q,
             is_topk (chunk_scores _ Toy.embed_doc f q nan_chunk) (length rows) sel_q
             ∧ ∀ i v, (i, v) ∈ sel_q ↔ selected rows qi i v).
Proof.
  assert (known_score_function "cos_sim") as Hname by (left; reflexivity).
  split; [reflexivity|]. split; [exact Hname|]. split; [reflexivity|].
  exact (proj2 (proj2 (process_chunk_outcome _ Toy.embed_doc Toy.cos_sim
           Toy.dot_score nan_job "cos_sim" 1 4 nan_chunk eq_refl Hname eq_refl))).
Defined.

Lemma search_keeps_local_top_k_witness :
  target_devices _ fresh3 ≠ []
  ∧ -1 ≤ 1
  ∧ (2 ≤ length Runs.queries2)%nat
  ∧ Runs.run7 = (Runs.run7.1, Ok Runs.res7)
  ∧ ∃ chunk_size f,
      corpus_chunk_size _ (obj _ Runs.run7.1) = Some chunk_size
      ∧ score_functions _ Toy.cos_sim Toy.dot_score !! "cos_sim" = Some f
      ∧ ∀ (qi b : nat) query chunk,
          Runs.queries2 !! qi = Some query →
          chunks (Z.to_nat chunk_size) (prepare_corpus _ fresh3 Runs.corpus7) !! b
            = Some chunk →
          ∃ sel,
            is_topk (chunk_scores _ Toy.embed_doc f (Toy.embed (q_text query)) chunk)
              (Z.to_nat (Z.min (1 + 1) (len chunk))) sel
            ∧ ∀ j v, (j, v) ∈ sel →
                ∃ doc, chunk !! j = Some doc
                     ∧ (c_id doc = q_id query
                        ∨ kept Runs.res7 (q_id query) (c_id doc)).
Proof.
  assert (target_devices _ fresh3 ≠ []) as Hdev by discriminate.
  assert (-1 ≤ 1) as Hk by lia.
  assert (2 ≤ length Runs.queries2)%nat as Hq by (simpl; lia).
  assert (Runs.run7 = (Runs.run7.1, Ok Runs.res7)) as Hrun by (vm_compute; reflexivity).
  split; [exact Hdev|]. split; [exact Hk|]. split; [exact Hq|]. split; [exact Hrun|].
  exact (search_keeps_local_top_k _ Toy.embed Toy.embed_doc Toy.cos_sim Toy.dot_score
           Toy.round_robin fresh3 Runs.corpus7 Runs.queries2 1 "cos_sim" _ _
           Hdev Hk Hq Hrun).
Defined.

(** Chunks of 3 and [top_k = 2]: the ranking is exhaustive. *)
Definition run7_all := Runs.toy_search fresh3 Runs.corpus7 Runs.queries2 2 "cos_sim".
Definition res7_all : results_t := Runs.ok_value ∅ run7_all.2.

Lemma search_keeps_whole_small_chunks_witness :
  target_devices _ fresh3 ≠ []
  ∧ (2 ≤ length Runs.queries2)%nat
  ∧ run7_all = (run7_all.1, Ok res7_all)
  ∧ corpus_chunk_size _ (obj _ run7_all.1) = Some 3
  ∧ 3 ≤ 2 + 1
  ∧ ∀ query doc, query ∈ Runs.queries2 → doc ∈ Runs.corpus7 →
      c_id doc ≠ q_id query → kept res7_all (q_id query) (c_id doc).
Proof.
  assert (target_devices _ fresh3 ≠ []) as Hdev by discriminate.
  assert (2 ≤ length Runs.queries2)%nat as Hq by (simpl; lia).
  assert (run7_all = (run7_all.1, Ok res7_all)) as Hrun by (vm_compute; reflexivity).
  assert (corpus_chunk_size _ (obj _ run7_all.1) = Some 3) as Hcs
    by (vm_compute; reflexivity).
  assert (3 ≤ 2 + 1) as Hk by lia.
  split; [exact Hdev|]. split; [exact Hq|]. split; [exact Hrun|].
  split; [exact Hcs|]. split; [exact Hk|].
  exact (search_keeps_whole_small_chunks _ Toy.embed Toy.embed_doc Toy.cos_sim
           Toy.dot_score Toy.round_robin fresh3 Runs.corpus7 Runs.queries2 2
           "cos_sim" _ _ 3 Hdev Hq Hrun Hcs Hk).
Defined.

Definition inner7_q2 : gmap string fl := default ∅ (Runs.res7 !! "q2").

Lemma search_entries_wellformed_witness :
  Runs.run7 = (Runs.run7.1, Ok Runs.res7)
  ∧ Runs.res7 !! "q2" = Some inner7_q2
  ∧ inner7_q2 !! "g" = Some (Num 1)
  ∧ "q2" ∈ q_id <$> Runs.queries2
  ∧ "g" ∈ c_id <$> Runs.corpus7
  ∧ "g" ≠ "q2"
  ∧ isnan (Num 1) = false.
Proof.
  assert (Runs.run7 = (Runs.run7.1, Ok Runs.res7)) as Hrun by (vm_compute; reflexivity).
  assert (Runs.res7 !! "q2" = Some inner7_q2) as Hq by (vm_compute; reflexivity).
  assert (inner7_q2 !! "g" = Some (Num 1)) as Hc by (vm_compute; reflexivity).
  split; [exact Hrun|]. split; [exact Hq|]. split; [exact Hc|].
  exact (search_entries_wellformed _ _ _ _ _ _ _ _ _ _ _ _ _ _ _ _ _ Hrun Hq Hc).
Defined.


Lemma search_at_least_two_chunks_witness :
  Runs.run7 = (Runs.run7.1, Ok Runs.res7)
  ∧ ∃ chunk_size,
      corpus_chunk_size _ (obj _ Runs.run7.1) = Some chunk_size
      ∧ 1 ≤ chunk_size ≤ len Runs.corpus7 - 1
      ∧ (2 ≤ length (chunks (Z.to_nat chunk_size)
                       (prepare_corpus _ fresh3 Runs.corpus7)))%nat.
Proof.
  assert (Runs.run7 = (Runs.run7.1, Ok Runs.res7)) as Hrun by (vm_compute; reflexivity).
  split; [exact Hrun|].
  exact (search_at_least_two_chunks _ _ _ _ _ _ _ _ _ _ _ _ _ Hrun).
Defined.

Definition run7_neg := Runs.toy_search fresh3 Runs.corpus7 Runs.queries2 (-1) "dot".
Definition res7_neg : results_t := Runs.ok_value ∅ run7_neg.2.

Lemma search_negative_top_k_witness :
  -1 ≤ -1
  ∧ run7_neg = (run7_neg.1, Ok res7_neg)
  ∧ res7_neg !! "q2" = Some ∅
  ∧ (∅ : gmap string fl) = ∅.
Proof.
  assert (-1 ≤ -1) as Hk by lia.
  assert (run7_neg = (run7_neg.1, Ok res7_neg)) as Hrun by (vm_compute; reflexivity).
  assert (res7_neg !! "q2" = Some ∅) as Hq by (vm_compute; reflexivity).
  split; [exact Hk|]. split; [exact Hrun|]. split; [exact Hq|].
  exact (search_negative_top_k _ Toy.embed Toy.embed_doc Toy.cos_sim Toy.dot_score
           Toy.round_robin fresh3 Runs.corpus7 Runs.queries2 (-1) "dot" _ _ "q2" ∅
           Hk Hrun Hq).
Defined.

Lemma chunks_longest_first_witness :
  sort_corpus _ fresh3 = true
  ∧ chunks 3 (prepare_corpus _ fresh3 Runs.corpus3) !! 0%nat
    = Some [Toy.doc "z" "000"; Toy.doc "x" "43"; Toy.doc "y" "6"]
  ∧ chunks 2 (prepare_corpus _ fresh3 Runs.corpus3) !! 1%nat = Some [Toy.doc "y" "6"]
  ∧ prepare_corpus _ fresh3 Runs.corpus3 ≡ₚ Runs.corpus3
  ∧ (doc_len (Toy.doc "y" "6") ≤ doc_len (Toy.doc "x" "43"))%nat.
Proof.
  assert (chunks 2 (prepare_corpus _ fresh3 Runs.corpus3) !! 0%nat
          = Some [Toy.doc "z" "000"; Toy.doc "x" "43"]) as Hb by (vm_compute; reflexivity).
  assert (chunks 2 (prepare_corpus _ fresh3 Runs.corpus3) !! 1%nat
          = Some [Toy.doc "y" "6"]) as Hb' by (vm_compute; reflexivity).
  assert (0 < 1)%nat as Hlt by lia.
  assert (Toy.doc "x" "43" ∈ [Toy.doc "z" "000"; Toy.doc "x" "43"]) as Hin
    by (right; left).
  assert (Toy.doc "y" "6" ∈ [Toy.doc "y" "6"]) as Hin' by left.
  split; [reflexivity|]. split; [vm_compute; reflexivity|]. split; [exact Hb'|].
  exact (chunks_longest_first _ fresh3 Runs.corpus3 2 0 1 _ _ _ _
           eq_refl Hb Hb' Hlt Hin Hin').
Defined.

Lemma search_call_order_witness :
  Runs.run7 = (Runs.run7.1, Ok Runs.res7)
  ∧ ∃ chunk_size,
      corpus_chunk_size _ (obj _ Runs.run7.1) = Some chunk_size
      ∧ trace _ Runs.run7.1
        = ((λ batch : list QueryItem, EncodeQueries (q_text <$> batch))
             <$> chunks (Z.to_nat chunk_size) Runs.queries2)
          ++ [StartPool (target_devices _ fresh3)]
          ++ (EncodeCorpus
                <$> range (len (chunks (Z.to_nat chunk_size)
                                  (prepare_corpus _ fresh3 Runs.corpus7))))
          ++ [StopPool; Compute].
Proof.
  assert (Runs.run7 = (Runs.run7.1, Ok Runs.res7)) as Hrun by (vm_compute; reflexivity).
  split; [exact Hrun|].
  exact (search_call_order _ _ _ _ _ _ _ _ _ _ _ _ _ Hrun).
Defined.

(** The table of the first job read backwards. *)
Definition table7 : list Row :=
  compute _ Toy.embed_doc Toy.cos_sim Toy.dot_score Toy.round_robin
    (obj _ Runs.run7.1) (chunks (Z.to_nat 3) (prepare_corpus _ fresh3 Runs.corpus7)).

Lemma search_ignores_row_order_witness :
  NoDup (c_id <$> Runs.corpus7)
  ∧ NoDup (q_id <$> Runs.queries2)
  ∧ Runs.run7 = (Runs.run7.1, Ok Runs.res7)
  ∧ corpus_chunk_size _ (obj _ Runs.run7.1) = Some 3
  ∧ reverse table7 ≡ₚ table7
  ∧ merge _ 3 (c_id <$> prepare_corpus _ fresh3 Runs.corpus7) (q_id <$> Runs.queries2)
      (len Runs.queries2) (reverse table7) {| obj := fresh3; trace := [] |}
    = (with_results _ Runs.res7 {| obj := fresh3; trace := [] |}, Ok ()).
Proof.
  assert (NoDup (c_id <$> Runs.corpus7)) as Hcids
    by (apply (bool_decide_unpack _); vm_compute; exact I).
  assert (NoDup (q_id <$> Runs.queries2)) as Hqids
    by (apply (bool_decide_unpack _); vm_compute; exact I).
  assert (Runs.run7 = (Runs.run7.1, Ok Runs.res7)) as Hrun by (vm_compute; reflexivity).
  assert (corpus_chunk_size _ (obj _ Runs.run7.1) = Some 3) as Hsize
    by (vm_compute; reflexivity).
  assert (reverse table7 ≡ₚ table7) as Hperm by apply reverse_Permutation.
  split; [exact Hcids|]. split; [exact Hqids|]. split; [exact Hrun|].
  split; [exact Hsize|]. split; [exact Hperm|].
  exact (search_ignores_row_order _ Toy.embed Toy.embed_doc Toy.cos_sim Toy.dot_score
           Toy.round_robin fresh3 Runs.corpus7 Runs.queries2 1 "cos_sim"
           Runs.run7.1 Runs.res7 3 (reverse table7) {| obj := fresh3; trace := [] |}
           Hcids Hqids Hrun Hsize Hperm).
Defined.

(** The four failures, each on an input of its own: an unknown score
    function; no chunk size and no device; a corpus of one document; no
    query. *)
Definition no_devices : Self (list Z) := __init__ (list Z) 128 None [].

Lemma search_failures_witness :
  Runs.toy_search fresh3 Runs.corpus7 Runs.queries2 1 "euclid"
  = ({| obj := fresh3; trace := [] |}, Raise (score_function_error "euclid"))
  ∧ Runs.toy_search no_devices Runs.corpus7 Runs.queries2 1 "dot"
    = ({| obj := no_devices; trace := [] |}, Raise ZeroDivisionError)
  ∧ Runs.toy_search fresh3 [Toy.doc "x" "43"] Runs.queries2 1 "dot"
    = ({| obj := set_corpus_chunk_size _ 0 fresh3; trace := [] |},
       Raise batch_size_error)
  ∧ Runs.toy_search fresh3 Runs.corpus7 [] 1 "dot"
    = ({| obj := set_corpus_chunk_size _ 3 fresh3; trace := [] |},
       Raise RuntimeError).
Proof.
  assert (¬ known_score_function "euclid") as Hunknown
    by (intros [H|H]; discriminate H).
  assert (known_score_function "dot") as Hdot by (right; reflexivity).
  assert (requested_chunk_size _ fresh3 (len [Toy.doc "x" "43"]) = Ok 3) as Hone
    by reflexivity.
  assert (requested_chunk_size _ fresh3 (len Runs.corpus7) = Ok 3) as Hseven
    by reflexivity.
  assert (Z.min 3 (len [Toy.doc "x" "43"] - 1) ≤ 0) as Hsmall by (vm_compute; discriminate).
  assert (0 < Z.min 3 (len Runs.corpus7 - 1)) as Hpos by (vm_compute; reflexivity).
  split; [|split; [|split]].
  - exact (proj1 (search_failures _ Toy.embed Toy.embed_doc Toy.cos_sim Toy.dot_score
                    Toy.round_robin fresh3 Runs.corpus7 Runs.queries2 1 "euclid")
             Hunknown).
  - exact (proj1 (proj2 (search_failures _ Toy.embed Toy.embed_doc Toy.cos_sim
                           Toy.dot_score Toy.round_robin no_devices Runs.corpus7
                           Runs.queries2 1 "dot"))
             Hdot eq_refl eq_refl).
  - exact (proj1 (proj2 (proj2 (search_failures _ Toy.embed Toy.embed_doc Toy.cos_sim
                                  Toy.dot_score Toy.round_robin fresh3
                                  [Toy.doc "x" "43"] Runs.queries2 1 "dot")))
             3 Hdot Hone Hsmall).
  - exact (proj2 (proj2 (proj2 (search_failures _ Toy.embed Toy.embed_doc Toy.cos_sim
                                  Toy.dot_score Toy.round_robin fresh3 Runs.corpus7
                                  [] 1 "dot")))
             3 Hdot Hseven Hpos eq_refl).
Defined.

(** Seven documents in chunks of three, two queries, [top_k = 1]: two
    warm-up rows and 2 + 2 + 1 rows of candidates. *)
Definition job7 : Self (list Z) := job_self _ Toy.embed fresh3 Runs.queries2 1 "cos_sim".

Lemma compute_table_size_witness :
  score_function _ job7 = Some "cos_sim"
  ∧ known_score_function "cos_sim"
  ∧ top_k _ job7 = Some 1
  ∧ -1 ≤ 1
  ∧ (2 ≤ length (query_embeddings _ job7))%nat
  ∧ target_devices _ job7 ≠ []
  ∧ length (compute _ Toy.embed_doc Toy.cos_sim Toy.dot_score Toy.round_robin
              job7 (chunks 3 Runs.corpus7))
    = (length (target_devices _ job7) + sum_list (rows_of 1 <$> chunks 3 Runs.corpus7))%nat
  ∧ length (real_rows (compute _ Toy.embed_doc Toy.cos_sim Toy.dot_score
                         Toy.round_robin job7 (chunks 3 Runs.corpus7)))
    = sum_list (rows_of 1 <$> chunks 3 Runs.corpus7).
Proof.
  assert (known_score_function "cos_sim") as Hknown by (left; reflexivity).
  assert (-1 ≤ 1) as Hk by lia.
  assert (2 ≤ length (query_embeddings _ job7))%nat as Hq by (vm_compute; lia).
  assert (target_devices _ job7 ≠ []) as Hdev by discriminate.
  split; [reflexivity|]. split; [exact Hknown|]. split; [reflexivity|].
  split; [exact Hk|]. split; [exact Hq|]. split; [exact Hdev|].
  exact (compute_table_size _ Toy.embed_doc Toy.cos_sim Toy.dot_score Toy.round_robin
           job7 (chunks 3 Runs.corpus7) "cos_sim" 1 eq_refl Hknown eq_refl Hk Hq Hdev).
Defined.
